(** * notifier: the caching and notification-computation layer

    A shallow embedding of
      - [notifier/database/drivers/base.py]: [try_cache] and the SQL file
        cache of [DatabaseWithSqlFileCache];
      - [notifier/database.py]: [SqliteDriver.get_new_posts_for_user];
      - [notifier/tasks.py]: the four scheduled tasks;
      - [notifier/types.py]: the records the above exchange.

    Python calls that may raise and that touch outside state are computations
    of the monad [Py.M]: a function of the state that yields an outcome (a
    value or a raised exception) together with the new state. *)

From Stdlib Require Import ZArith List Bool Ascii String Lia.
From stdpp Require Import base option list gmap strings.

Local Open Scope string_scope.
Local Open Scope list_scope.
Local Open Scope Z_scope.

(** ** Python calls: outcomes, exceptions, the state-and-exception monad *)

Module Py.

(** An exception class, by its name and the names of its proper ancestors
    (its method resolution order without itself). *)
Record ExcClass := mkClass { cls_name : string; cls_bases : list string }.

(** An exception object: its class and its message ([str(error)]). *)
Record Exc := mkExc { exc_class : ExcClass; exc_msg : string }.

(** [issubclass(c, d)]: [d] is [c] or one of its ancestors. *)
Definition issubclass (c d : ExcClass) : bool :=
  bool_decide (cls_name c = cls_name d)
  || bool_decide (cls_name d ∈ cls_bases c).

(** [isinstance(e, classes)] for a tuple of classes: the test of an
    [except classes] clause. *)
Definition isinstance (e : Exc) (classes : list ExcClass) : bool :=
  existsb (issubclass (exc_class e)) classes.

Definition Exception : ExcClass := mkClass "Exception" ["BaseException"].

Definition ValueError : ExcClass :=
  mkClass "ValueError" ["Exception"; "BaseException"].

Definition StopIteration : ExcClass :=
  mkClass "StopIteration" ["Exception"; "BaseException"].

Definition FileNotFoundError : ExcClass :=
  mkClass "FileNotFoundError" ["OSError"; "Exception"; "BaseException"].

(** How a call ends. *)
Inductive outcome (A : Type) : Type :=
| Returned (a : A)
| Raised (e : Exc).
Arguments Returned {A} a.
Arguments Raised {A} e.

(** A computation over a state of type [S]. *)
Definition M (S A : Type) : Type := S → outcome A * S.

#[global] Instance M_ret {S} : MRet (M S) := λ A a s, (Returned a, s).

#[global] Instance M_bind {S} : MBind (M S) := λ A B k m s,
  match m s with
  | (Returned a, s') => k a s'
  | (Raised e, s') => (Raised e, s')
  end.

#[global] Instance M_throw {S} : MThrow Exc (M S) := λ A e s, (Raised e, s).

(** [try: body except classes as error: handler(error)]: an exception of the
    body that is an instance of one of [classes] runs the handler in the state
    the body left; any other exception goes on to the caller. *)
Definition try_except {S A} (body : M S A) (classes : list ExcClass)
    (handler : Exc → M S A) : M S A := λ s,
  match body s with
  | (Returned a, s') => (Returned a, s')
  | (Raised e, s') =>
      if isinstance e classes then handler e s' else (Raised e, s')
  end.

(** A state that records what a run does: the world the callables act on and
    the events so far, oldest first. *)
Record run (W Ev : Type) := mkRun { world : W; trace : list Ev }.
Arguments mkRun {W Ev} world trace.
Arguments world {W Ev} r.
Arguments trace {W Ev} r.

Definition log {W Ev} (ev : Ev) : M (run W Ev) () := λ r,
  (Returned (), mkRun (world r) (trace r ++ [ev])).

(** Calling something that acts on the world only. *)
Definition on_world {W Ev A} (f : W → outcome A * W) : M (run W Ev) A := λ r,
  let '(o, w') := f (world r) in (o, mkRun w' (trace r)).

(** [s.split(sep)] for a separator of one character. *)
Fixpoint split (sep : Ascii.ascii) (s : string) : list string :=
  match s with
  | EmptyString => [EmptyString]
  | String a rest =>
      if Ascii.eqb a sep then EmptyString :: split sep rest
      else match split sep rest with
           | piece :: pieces => String a piece :: pieces
           | [] => [String a EmptyString]
           end
  end.

(** [s.endswith(suffix)]. *)
Definition endswith (s suffix : string) : bool :=
  let n := String.length s in
  let k := String.length suffix in
  (k <=? n)%nat && String.eqb (String.substring (n - k) k s) suffix.

End Py.

Import Py.

(** ** [try_cache] (notifier/database/drivers/base.py) *)

Module TryCache.

(** What a run of [try_cache] does that can be seen from outside. *)
Inductive event (V : Type) : Type :=
| EvGet
| EvStore (v : V)
| EvPrint (line : string).
Arguments EvGet {V}.
Arguments EvStore {V} v.
Arguments EvPrint {V} line.

Definition AttributeError : ExcClass :=
  mkClass "AttributeError" ["Exception"; "BaseException"].

(** The arguments the store callable has been invoked with, oldest first. *)
Definition store_calls {V} (t : list (event V)) : list V :=
  omap (λ ev, match ev with EvStore v => Some v | _ => None end) t.

Section try_cache.

(** [T] is the type of the values other than [None] that [get] can return,
    so that a Python value is an [option T]; [!=] on them is decidable
    equality. [W] is everything the two callables act on, the remote source
    and the cache alike. *)
Context {W T : Type} `{EqDecision T}.

(** The two callables, and the [__name__] of [get]: a function has one, a
    [functools.partial] or an object with [__call__] has none. *)
Variable get : W → outcome (option T) * W.
Variable get_name : option string.
Variable store : option T → W → outcome () * W.

Definition call_get : M (run W (event (option T))) (option T) :=
  log EvGet;; on_world get.

Definition call_store (v : option T) : M (run W (event (option T))) () :=
  log (EvStore v);; on_world (store v).

Definition print (line : string) : M (run W (event (option T))) () :=
  log (EvPrint line).

(** [get.__name__] *)
Definition get_dunder_name : M (run W (event (option T))) string :=
  match get_name with
  | Some name => mret name
  | None => mthrow (mkExc AttributeError "__name__")
  end.

Definition try_cache (do_not_store : option T)
    (catch : option (list ExcClass)) : M (run W (event (option T))) () :=
  let catch := match catch with None => [] | Some classes => classes end in
  let value := do_not_store in
  value ← try_except call_get catch (λ error,
             name ← get_dunder_name;
             print (name +:+ " failed; will use value from cache");;
             print ("Failure: " +:+ exc_msg error);;
             mret value);
  if bool_decide (value ≠ do_not_store) then call_store value
  else mret ().

End try_cache.

(** The defaults of the keyword arguments [do_not_store] and [catch]. *)
Definition default_do_not_store {T} : option T := None.

Definition default_catch : option (list ExcClass) := None.

End TryCache.

(** ** [DatabaseWithSqlFileCache] (notifier/database/drivers/base.py) *)

Module SqlFileCache.

(** An entry of [query_cache]: the dict with keys ["script"] and ["query"]. *)
Record QueryDefinition := mkQuery { script : bool; query : string }.

#[global] Instance QueryDefinition_eq_dec : EqDecision QueryDefinition.
Proof. solve_decision. Defined.

(** [builtin_queries_dir]: the text files of the directory, each with its
    name (the last component of its path) and contents, in the order
    [iterdir] yields them. *)
Definition directory : Type := list (string * string).

Inductive fs_access : Type :=
| Iterdir
| OpenRead (name : string).

(** The driver object, the directory it reads, and the accesses made to that
    directory so far. *)
Record state := mkState {
  queries_dir : directory;
  query_cache : gmap string QueryDefinition;
  fs_log : list fs_access
}.

Definition set_cache (c : gmap string QueryDefinition) (st : state) : state :=
  mkState (queries_dir st) c (fs_log st).

Definition accessed (a : fs_access) (st : state) : state :=
  mkState (queries_dir st) (query_cache st) (fs_log st ++ [a]).

(** Someone edits the directory between two calls. *)
Definition edit_dir (d : directory) (st : state) : state :=
  mkState d (query_cache st) (fs_log st).

Definition iterdir : M state directory := λ st,
  (Returned (queries_dir st), accessed Iterdir st).

(** [next(generator)]: the first element, or [StopIteration]. *)
Definition next {A} (l : list A) : M state A :=
  match l with
  | a :: _ => mret a
  | [] => mthrow (mkExc StopIteration "")
  end.

(** [path.name.split(".")[0]] *)
Definition stem (name : string) : string :=
  hd EmptyString (split "."%char name).

(** [with path.open() as file: file.read()], the path given by its name. *)
Definition read_text (name : string) : M state string := λ st,
  match List.find (λ f, String.eqb (fst f) name) (queries_dir st) with
  | Some f => (Returned (snd f), accessed (OpenRead name) st)
  | None =>
      (Raised (mkExc FileNotFoundError name), accessed (OpenRead name) st)
  end.

Definition clear_query_file_cache : M state () := λ st,
  (Returned (), set_cache ∅ st).

(** [self.query_cache[query_name] = definition] *)
Definition setitem_query_cache (query_name : string)
    (definition : QueryDefinition) : M state () := λ st,
  (Returned (), set_cache (<[query_name := definition]> (query_cache st)) st).

Definition read_query_file (query_name : string) : M state () :=
  query_path ← try_except
    (paths ← iterdir;
     next (List.filter (λ path, String.eqb (stem path) query_name)
                       (List.map fst paths)))
    [StopIteration]
    (λ stop,
       mthrow (mkExc ValueError
                 ("Query " +:+ query_name +:+ " does not exist")));
  query ← read_text query_path;
  setitem_query_cache query_name
    (mkQuery (endswith query_path ".script.sql") query).

Definition cache_named_query (query_name : string) : M state () := λ st,
  if bool_decide (query_name ∉ dom (query_cache st))
  then read_query_file query_name st
  else (Returned (), st).

(** [__init__] *)
Definition init (d : directory) : state := mkState d ∅ [].

(** The file that the scan of [read_query_file] selects: the first one, in
    the order of [iterdir], whose name up to its first dot is the query
    name. *)
Definition first_match (query_name : string) (d : directory)
    : option (string * string) :=
  List.find (λ f, String.eqb (stem (fst f)) query_name) d.

(** What can happen to a driver between two calls: a query is requested, the
    directory is edited from outside, the cache is cleared. *)
Inductive action : Type :=
| ActCacheNamedQuery (query_name : string)
| ActEditDir (d : directory)
| ActClear.

#[global] Instance action_eq_dec : EqDecision action.
Proof. solve_decision. Defined.

Definition act (a : action) : M state () :=
  match a with
  | ActCacheNamedQuery query_name => cache_named_query query_name
  | ActEditDir d => λ st, (Returned (), edit_dir d st)
  | ActClear => clear_query_file_cache
  end.

(** The state after a sequence of actions; a call that raises leaves the
    driver as it is at that point, and the next action goes on from there. *)
Definition acts (l : list action) (st : state) : state :=
  fold_left (λ st a, snd (act a st)) l st.

End SqlFileCache.

(** ** The records of notifier/types.py that the database layer exchanges *)

Module Types.

(** [SubscriptionCardinality]: [Literal[-1]] or [Literal[1]]. *)
Inductive SubscriptionCardinality : Type :=
| Minus1
| Plus1.

#[global] Instance SubscriptionCardinality_eq_dec :
  EqDecision SubscriptionCardinality.
Proof. solve_decision. Defined.

(** [Subscription]; the fields are [thread_id], [post_id] and [sub]. *)
Record Subscription := mkSubscription {
  sub_thread_id : string;
  sub_post_id : option string;
  sub : SubscriptionCardinality
}.

Inductive DeliveryMethod : Type :=
| Pm
| Email.

(** [CachedUserConfig] *)
Record CachedUserConfig := mkCachedUserConfig {
  user_id : string;
  username : string;
  frequency : string;
  language : string;
  delivery : DeliveryMethod;
  last_notified_timestamp : Z;
  manual_subs : list Subscription;
  auto_subs : list Subscription
}.

(** [RawPost]; the fields are [id], [thread_id], [parent_post_id],
    [posted_timestamp], [title], [snippet], [user_id] and [username]. *)
Record RawPost := mkRawPost {
  id : string;
  thread_id : string;
  parent_post_id : option string;
  posted_timestamp : Z;
  title : string;
  snippet : string;
  post_user_id : string;
  post_username : string
}.

(** [NewPostsInfo], over the types of the rows of its two lists. *)
Record NewPostsInfo (TP PR : Type) := mkNewPostsInfo {
  thread_posts : list TP;
  post_replies : list PR
}.
Arguments mkNewPostsInfo {TP PR} thread_posts post_replies.
Arguments thread_posts {TP PR} n.
Arguments post_replies {TP PR} n.

End Types.

Import Types.

(** ** [SqliteDriver.get_new_posts_for_user] (notifier/database.py) *)

Module Database.

(** A row of a query result, of which the code reads the column ["id"]. *)
Class Row (R : Type) := row_id : R → string.

Section get_new_posts_for_user.

(** [Conn] is the connection, that is the content of the database; [TP] and
    [PR] are the rows of the two queries. *)
Context {Conn TP PR : Type} `{Row TP, Row PR}.

(** [conn.execute(queries[name], {"user_id": .., "search_timestamp": ..})
    .fetchall()] for the two names the method uses. The query texts are not
    part of the driver module: the method is embedded over any two of them. *)
Variable get_posts_in_subscribed_threads : Conn → string → Z → list TP.
Variable get_replies_to_subscribed_posts : Conn → string → Z → list PR.

Definition get_new_posts_for_user (conn : Conn) (user_id : string)
    (search_timestamp : Z) : NewPostsInfo TP PR :=
  let thread_posts :=
    get_posts_in_subscribed_threads conn user_id search_timestamp in
  let post_replies :=
    get_replies_to_subscribed_posts conn user_id search_timestamp in
  let post_replies_ids := List.map row_id post_replies in
  let thread_posts :=
    filter (λ thread_post, row_id thread_post ∉ post_replies_ids)
           thread_posts in
  mkNewPostsInfo thread_posts post_replies.

End get_new_posts_for_user.


Section get_new_posts_for_user_call.

Context {Conn TP PR : Type} `{Row TP, Row PR}.

Variable get_posts_in_subscribed_threads : Conn → string → Z → list TP.
Variable get_replies_to_subscribed_posts : Conn → string → Z → list PR.

(** The error of [sqlite3] for a parameter of a type it cannot bind. *)
Variable binding_error : Exc.



End get_new_posts_for_user_call.

(** The IDs of all the rows of a payload. *)
Definition payload_ids {TP PR} `{Row TP, Row PR} (n : NewPostsInfo TP PR)
    : list string :=
  List.map row_id (thread_posts n) ++ List.map row_id (post_replies n).

End Database.

(** ** The two queries, whose SQL is not in the driver module *)

Module Queries.

Import Database.

(** Modelled from the spec: the schema ([create_tables_script]) is missing.
    The tables the two queries read: the stored posts and the cached user
    configs with their subscriptions. *)
Record cache := mkCache {
  post : list RawPost;
  user_config : list CachedUserConfig
}.

#[global] Instance RawPost_row : Row RawPost := id.

(** Modelled from the spec: part of the missing SQL. The subscriptions of a
    user: [manual_subs] and [auto_subs] together. *)
Definition subscriptions_of (db : cache) (uid : string) : list Subscription :=
  flat_map (λ c, manual_subs c ++ auto_subs c)
           (filter (λ c, user_id c = uid) (user_config db)).

(** Modelled from the spec: part of the missing SQL. There is a record of
    the given direction for the pair [(thread_id, post_id)]. *)
Definition has_sub (subs : list Subscription) (dir : SubscriptionCardinality)
    (t : string) (p : option string) : bool :=
  existsb (λ s, bool_decide (sub s = dir ∧ sub_thread_id s = t
                             ∧ sub_post_id s = p)) subs.

(** Modelled from the spec: part of the missing SQL. The user is subscribed
    to the whole thread: a [+1] without post ID that no [-1] of the same pair
    overrides. *)
Definition thread_subscribed (subs : list Subscription) (t : string) : bool :=
  has_sub subs Plus1 t None && negb (has_sub subs Minus1 t None).

(** Modelled from the spec: part of the missing SQL. The user has
    unsubscribed from this very post: a [-1] for its thread and its ID. *)
Definition post_unsubscribed (subs : list Subscription) (p : RawPost) : bool :=
  has_sub subs Minus1 (thread_id p) (Some (id p)).

Section queries.

(** Whether an active global override of the thread's wiki mutes the thread.
    The spec leaves the matching of override rules open; the queries are
    modelled over any such test. *)
Variable thread_muted : cache → string → bool.

(** Whether a subscription to a whole thread also makes the user a subscriber
    of each post of the thread. The algorithm of the spec speaks only of
    "a post the user is subscribed to"; its first scenario files a reply under
    [post_replies] for a user whose only subscription is to the thread. The
    queries are modelled for either reading. *)
Variable thread_sub_covers_posts : bool.

(** Modelled from the spec: part of the missing SQL. The user is subscribed
    to post [q] of thread [t]: by a [+1] for the pair (or, under the second
    reading, by a subscription to the thread), unless a [-1] for the pair
    overrides it. *)
Definition post_subscribed (subs : list Subscription) (t q : string) : bool :=
  (has_sub subs Plus1 t (Some q)
   || (thread_sub_covers_posts && thread_subscribed subs t))
  && negb (has_sub subs Minus1 t (Some q)).

(** Modelled from the spec: the SQL of [queries["get_posts_in_subscribed_threads"]]
    (module [databasequeries]) is missing. Query A of the spec: all posts in
    threads the user is subscribed to (via [manual_subs] and [auto_subs],
    minus active [-1] unsubscriptions), posted within the range; a [-1] for
    the pair of the post removes it even if the thread-level [+1] would
    include it; a post whose thread a global override mutes is excluded.
    The method binds the single parameter [search_timestamp], the start of
    the range; the rows are the posts themselves. *)
Definition get_posts_in_subscribed_threads (db : cache) (uid : string)
    (search_timestamp : Z) : list RawPost :=
  let subs := subscriptions_of db uid in
  List.filter (λ p,
      thread_subscribed subs (thread_id p)
      && negb (post_unsubscribed subs p)
      && negb (thread_muted db (thread_id p))
      && (search_timestamp <=? posted_timestamp p))
    (post db).

(** Modelled from the spec: the SQL of [queries["get_replies_to_subscribed_posts"]]
    (module [databasequeries]) is missing. Query B of the spec: all posts
    that are direct replies to a post the user is subscribed to, posted
    within the range, with the same removal of unsubscribed and of muted
    posts as in query A. A reply lies in the thread of its parent. *)
Definition get_replies_to_subscribed_posts (db : cache) (uid : string)
    (search_timestamp : Z) : list RawPost :=
  let subs := subscriptions_of db uid in
  List.filter (λ p,
      match parent_post_id p with
      | Some q => post_subscribed subs (thread_id p) q
      | None => false
      end
      && negb (post_unsubscribed subs p)
      && negb (thread_muted db (thread_id p))
      && (search_timestamp <=? posted_timestamp p))
    (post db).

(** The method of the driver over the two modelled queries. *)
Definition new_posts_for_user (db : cache) (uid : string)
    (search_timestamp : Z) : NewPostsInfo RawPost RawPost :=
  get_new_posts_for_user get_posts_in_subscribed_threads
    get_replies_to_subscribed_posts db uid search_timestamp.

End queries.

End Queries.

(** ** The scheduled tasks (notifier/tasks.py) *)

Module Tasks.

(** The four subclasses of [ScheduledTask]. *)
Inductive ScheduledTask : Type :=
| Hourly
| Daily
| Weekly
| Monthly.

Definition crontab (task : ScheduledTask) : string :=
  match task with
  | Hourly => "0 * * * *"
  | Daily => "0 0 * * *"
  | Weekly => "0 0 * * 0"
  | Monthly => "0 0 1 * *"
  end.

(** The calls a task can make: the two functions [execute] names, and the
    methods of the database driver that serve a notification cycle. *)
Inductive call (U : Type) : Type :=
| CallGetNewPosts
| CallGetUsers
| CallGetUserConfigs (frequency : string)
| CallGetNewPostsForUser (user : U)
| CallStoreUserLastNotified (user : U).
Arguments CallGetNewPosts {U}.
Arguments CallGetUsers {U}.
Arguments CallGetUserConfigs {U} frequency.
Arguments CallGetNewPostsForUser {U} user.
Arguments CallStoreUserLastNotified {U} user.

Section execute.

(** [W] is the world the called functions act on, [U] the type of a user. *)
Context {W U : Type}.

(** The functions [get_new_posts] and [get_users] that the bodies of
    [execute] name; the module does not define them. *)
Variable get_new_posts : W → outcome () * W.
Variable get_users : W → outcome (list U) * W.

Definition call_get_new_posts : M (run W (call U)) () :=
  log CallGetNewPosts;; on_world get_new_posts.

Definition call_get_users : M (run W (call U)) (list U) :=
  log CallGetUsers;; on_world get_users.

Definition execute (task : ScheduledTask) : M (run W (call U)) () :=
  match task with
  | Hourly =>
      call_get_new_posts;;
      users ← call_get_users;
      mret ()
  | Daily | Weekly | Monthly =>
      users ← call_get_users;
      mret ()
  end.

End execute.

End Tasks.

(** ** What a trace of [try_cache] holds, by kind of event *)

Module Trace.

Import TryCache.

(** How many times the fetch has been called. *)
Definition get_calls {V} (t : list (event V)) : nat :=
  length (List.filter (λ ev, match ev with EvGet => true | _ => false end) t).

(** The lines printed, oldest first. *)
Definition printed {V} (t : list (event V)) : list string :=
  omap (λ ev, match ev with EvPrint line => Some line | _ => None end) t.

End Trace.

(** ** [read_local_config] (notifier/config/local.py) *)

Module LocalConfig.

(** A value of a parsed TOML document. *)
#[warnings="-register-all"]
Inductive value : Type :=
| VStr (s : string)
| VInt (z : Z)
| VBool (b : bool)
| VArray (l : list value)
| VDict (d : gmap string value).

(** The two classes [assert_key] is called with. *)
Inductive pytype : Type :=
| Str
| Dict.

Definition KeyError : ExcClass :=
  mkClass "KeyError" ["LookupError"; "Exception"; "BaseException"].

Definition TypeError : ExcClass :=
  mkClass "TypeError" ["Exception"; "BaseException"].

Definition AttributeError : ExcClass :=
  mkClass "AttributeError" ["Exception"; "BaseException"].

Definition RuntimeError : ExcClass :=
  mkClass "RuntimeError" ["Exception"; "BaseException"].

(** [isinstance(config.get(key), instance)], on the result of [get]: [None]
    for a missing key, which is an instance of neither class. *)
Definition isinstance_value (v : option value) (instance : pytype) : bool :=
  match v, instance with
  | Some (VStr _), Str => true
  | Some (VDict _), Dict => true
  | _, _ => false
  end.

Definition backslash : Ascii.ascii := ascii_of_nat 92.

(** The replacement string holds a backslash, so that [re.sub] reads it as a
    template with escapes. *)
Definition has_backslash (repl : string) : bool :=
  existsb (Ascii.eqb backslash) (list_ascii_of_string repl).

Section read_local_config.

(** [S] is the state the computation runs over. *)
Context {S : Type}.

(** [str(Path(__file__).parent.parent)]: the directory of the package. *)
Variable package_dir : string.

(** [re.sub(pattern, repl, string)] for a replacement that holds a
    backslash: the processing of escapes belongs to the library and is left
    open. *)
Variable sub_with_escapes : string → string → string → outcome string.

(** [re.sub(pattern, repl, path)] for the two patterns of the module, [^@]
    and [^\?], each of which matches the one character [c] at the start of
    the string and nowhere else. A replacement without backslash is put in
    as it is. *)
Definition re_sub_start (pattern : string) (c : Ascii.ascii)
    (repl path : string) : M S string :=
  if has_backslash repl then
    match sub_with_escapes pattern repl path with
    | Returned s => mret s
    | Raised e => mthrow e
    end
  else
    match path with
    | String a rest => if Ascii.eqb a c then mret (repl +:+ rest) else mret path
    | EmptyString => mret path
    end.

(** [replace_path_alias], a closure over [config_path]; [re.sub] refuses a
    [path] that is not a string. *)
Definition replace_path_alias (config_path : string) (path : value)
    : M S string :=
  match path with
  | VStr path =>
      path ← re_sub_start "^@" "@" package_dir path;
      path ← re_sub_start "^\?" "?" config_path path;
      mret path
  | _ => mthrow (mkExc TypeError "expected string or bytes-like object")
  end.

(** [assert_key]; an object that is not a dict has no [get]. *)
Definition assert_key (config : value) (key : string) (instance : pytype)
    : M S () :=
  match config with
  | VDict d =>
      if isinstance_value (d !! key) instance then mret ()
      else mthrow (mkExc KeyError ("Missing " +:+ key +:+ " in config"))
  | _ => mthrow (mkExc AttributeError "get")
  end.

(** [config[key]] *)
Definition getitem (config : value) (key : string) : M S value :=
  match config with
  | VDict d =>
      match d !! key with
      | Some v => mret v
      | None => mthrow (mkExc KeyError key)
      end
  | _ => mthrow (mkExc TypeError key)
  end.

End read_local_config.

Section is_complete_config.

Variable package_dir : string.
Variable sub_with_escapes : string → string → string → outcome string.

(** The config object the function checks and then changes in place is the
    state. *)
Definition the_config : M (gmap string value) value := λ config,
  (Returned (VDict config), config).

(** [config["path"]["lang"] = lang] *)
Definition setitem_path_lang (lang : string) : M (gmap string value) () :=
  λ config,
  match config !! "path" with
  | Some (VDict path) =>
      (Returned (), <["path" := VDict (<["lang" := VStr lang]> path)]> config)
  | Some _ => (Raised (mkExc TypeError "path"), config)
  | None => (Raised (mkExc KeyError "path"), config)
  end.

Definition is_complete_config (config_path : string)
    : M (gmap string value) bool :=
  config ← the_config;
  assert_key config "wikidot_username" Str;;
  assert_key config "config_wiki" Str;;
  assert_key config "user_config_category" Str;;
  assert_key config "wiki_config_category" Str;;
  assert_key config "overrides_url" Str;;
  assert_key config "gmail_username" Str;;
  assert_key config "path" Dict;;
  path ← getitem config "path";
  assert_key path "lang" Str;;
  path ← getitem config "path";
  lang ← getitem path "lang";
  lang ← replace_path_alias package_dir sub_with_escapes config_path lang;
  setitem_path_lang lang;;
  mret true.

(** [tomlkit.parse(config_file.read())] on the open file, by its path: the
    parsed document, or what opening, reading or parsing raise. *)
Variable parse_file : string → outcome (gmap string value).

Definition read_local_config (config_path : string)
    : outcome (gmap string value) :=
  match parse_file config_path with
  | Raised e => Raised e
  | Returned config =>
      match is_complete_config config_path config with
      | (Returned true, config) => Returned config
      | (Returned false, _) => Raised (mkExc RuntimeError "")
      | (Raised e, _) => Raised e
      end
  end.

End is_complete_config.

(** The keys of the document that [is_complete_config] checks, in the order
    of its checks, each with the class it asks for. *)
Definition checked_keys : list (string * pytype) :=
  [ ("wikidot_username", Str); ("config_wiki", Str);
    ("user_config_category", Str); ("wiki_config_category", Str);
    ("overrides_url", Str); ("gmail_username", Str); ("path", Dict) ].

End LocalConfig.

(** ** Sample data *)

Module Sample.

Import SqlFileCache Database Queries Tasks.

(** A remote source of user names, with the cached names as the world. *)
Definition ConnectionError : ExcClass :=
  mkClass "ConnectionError" ["OSError"; "Exception"; "BaseException"].

Definition fetch_times_out (w : list string)
    : outcome (option (list string)) * list string :=
  (Raised (mkExc ConnectionError "timed out"), w).

Definition fetch_users (w : list string)
    : outcome (option (list string)) * list string :=
  (Returned (Some ["alice"; "bob"]), w).

Definition fetch_nothing (w : list string)
    : outcome (option (list string)) * list string :=
  (Returned None, w).

Definition store_users (v : option (list string)) (w : list string)
    : outcome () * list string :=
  (Returned (), default [] v).

(** A directory of queries, and the same after an edit of one file. *)
Definition queries_v1 : directory :=
  [ ("create_tables.script.sql", "CREATE TABLE post (id TEXT);");
    ("get_user_configs.sql", "SELECT * FROM user_config") ].

Definition queries_v2 : directory :=
  [ ("create_tables.script.sql", "CREATE TABLE post (id TEXT);");
    ("get_user_configs.sql", "SELECT user_id FROM user_config") ].

(** Thread [T] with a top-level post [P1], a reply [P2] to it and a late
    top-level post [P3]; user [U] with the given subscriptions. *)
Definition P1 : RawPost := mkRawPost "P1" "T" None 100 "" "" "A" "a".

Definition P2 : RawPost := mkRawPost "P2" "T" (Some "P1") 150 "" "" "B" "b".

Definition P3 : RawPost := mkRawPost "P3" "T" None 500 "" "" "A" "a".

Definition U (subs : list Subscription) : CachedUserConfig :=
  mkCachedUserConfig "U" "u" "hourly" "en" Pm 0 subs [].

Definition db (subs : list Subscription) : cache :=
  mkCache [P1; P2; P3] [U subs].

Definition no_override : cache → string → bool := λ _ _, false.

Definition mute_T : cache → string → bool := λ _ t, bool_decide (t = "T").

(** The subscriptions of the unsubscription scenario: the whole of [T],
    but not its post [P1]. *)
Definition T_without_P1 : list Subscription :=
  [ mkSubscription "T" None Plus1; mkSubscription "T" (Some "P1") Minus1 ].

(** A driver that has served one request, and what happens to it next. *)
Definition served_once : state :=
  snd (cache_named_query "get_user_configs" (init queries_v1)).

Definition busy : list action :=
  [ ActCacheNamedQuery "create_tables";
    ActEditDir queries_v2;
    ActCacheNamedQuery "no_such_query" ].

(** A user source for the tasks, with nothing else in the world. *)
Definition get_new_posts (w : ()) : outcome () * () := (Returned (), w).

Definition get_users (w : ()) : outcome (list string) * () :=
  (Returned ["U"], w).

End Sample.

(** ** More sample data *)

Module Fixtures.

Import SqlFileCache LocalConfig.

(** A store that fails. *)
Definition store_fails (v : option (list string)) (w : list string)
    : outcome () * list string :=
  (Raised (mkExc Sample.ConnectionError "database is locked"), w).

(** A local config as parsed, complete but for the keys taken out of it. *)
Definition config : gmap string value :=
  <["wikidot_username" := VStr "notifier"]>
  (<["config_wiki" := VStr "tars"]>
  (<["user_config_category" := VStr "notify"]>
  (<["wiki_config_category" := VStr "wiki"]>
  (<["overrides_url" := VStr "https://example.org/overrides"]>
  (<["gmail_username" := VStr "notifier"]>
  (<["path" := VDict (<["lang" := VStr "@/lang"]> ∅)]> ∅)))))).

Definition config_without_gmail : gmap string value :=
  delete "gmail_username" config.

Definition config_without_lang : gmap string value :=
  <["path" := VDict ∅]> config.

Definition package_dir : string := "/srv/notifier".

Definition parse_file (document : gmap string value) (path : string)
    : outcome (gmap string value) :=
  if String.eqb path "config.toml" then Returned document
  else Raised (mkExc FileNotFoundError path).

(** A library that refuses every replacement with a backslash. *)
Definition sub_with_escapes (pattern repl text : string) : outcome string :=
  Raised (mkExc (mkClass "error" ["Exception"; "BaseException"]) "bad escape").

End Fixtures.

(** * Properties *)

(** ** Exceptions *)

Lemma issubclass_refl c : issubclass c c = true.
Proof. unfold issubclass. by rewrite bool_decide_eq_true_2. Qed.

Lemma isinstance_of_member e classes :
  exc_class e ∈ classes → isinstance e classes = true.
Proof.
  intros Hin. unfold isinstance. apply existsb_exists.
  exists (exc_class e). split; [by apply list_elem_of_In | apply issubclass_refl].
Qed.

Lemma isinstance_nil e : isinstance e [] = false.
Proof. reflexivity. Qed.

(** ** [try_cache] *)

Section try_cache_facts.

Import TryCache.

Context {W T : Type} `{EqDecision T}.

Implicit Types (r : run W (event (option T))) (v : option T).

Lemma store_calls_app (t1 t2 : list (event (option T))) :
  store_calls (t1 ++ t2) = store_calls t1 ++ store_calls t2.
Proof. unfold store_calls. apply omap_app. Qed.

(** A fetch with a [__name__] that raises an exception the [except] clause
    catches: two lines are printed and nothing else happens. *)
Lemma try_cache_caught get name store do_not_store catch r e w' :
  get (world r) = (Raised e, w') →
  isinstance e (default [] catch) = true →
  try_cache get (Some name) store do_not_store catch r
  = (Returned (),
     mkRun w' (trace r ++ [EvGet]
               ++ [EvPrint (name +:+ " failed; will use value from cache")]
               ++ [EvPrint ("Failure: " +:+ exc_msg e)])).
Proof.
  intros Hget Hcaught.
  unfold try_cache, try_except, call_get, get_dunder_name, print, log,
    on_world.
  unfold mbind, mret, M_bind, M_ret. simpl. rewrite Hget.
  replace (match catch with Some classes => classes | None => [] end)
    with (default [] catch) by by destruct catch.
  rewrite Hcaught. simpl.
  rewrite bool_decide_eq_false_2 by (intros Hne; by apply Hne).
  by rewrite <- !app_assoc.
Qed.

(** A fetch without [__name__] that raises an exception the [except] clause
    catches: the handler raises [AttributeError] on its first line, before
    anything is printed. *)
Lemma try_cache_caught_nameless get store do_not_store catch r e w' :
  get (world r) = (Raised e, w') →
  isinstance e (default [] catch) = true →
  try_cache get None store do_not_store catch r
  = (Raised (mkExc AttributeError "__name__"), mkRun w' (trace r ++ [EvGet])).
Proof.
  intros Hget Hcaught.
  unfold try_cache, try_except, call_get, get_dunder_name, log, on_world.
  unfold mbind, mret, mthrow, M_bind, M_ret, M_throw. simpl. rewrite Hget.
  replace (match catch with Some classes => classes | None => [] end)
    with (default [] catch) by by destruct catch.
  by rewrite Hcaught.
Qed.

(** A fetch that returns: the value is stored unless it is the skip value. *)
Lemma try_cache_returned get get_name store do_not_store catch r v w' :
  get (world r) = (Returned v, w') →
  try_cache get get_name store do_not_store catch r
  = if bool_decide (v ≠ do_not_store)
    then let '(o, w'') := store v w' in
         (o, mkRun w'' (trace r ++ [EvGet] ++ [EvStore v]))
    else (Returned (), mkRun w' (trace r ++ [EvGet])).
Proof.
  intros Hget.
  unfold try_cache, try_except, call_get, call_store, log, on_world.
  unfold mbind, mret, M_bind, M_ret. simpl. rewrite Hget.
  case_bool_decide; simpl; [|done].
  destruct (store v w') as [o w'']. by rewrite <- app_assoc.
Qed.

(** A fetch that raises an exception the [except] clause does not catch:
    the exception reaches the caller. *)
Lemma try_cache_uncaught get get_name store do_not_store catch r e w' :
  get (world r) = (Raised e, w') →
  isinstance e (default [] catch) = false →
  try_cache get get_name store do_not_store catch r
  = (Raised e, mkRun w' (trace r ++ [EvGet])).
Proof.
  intros Hget Hcaught.
  unfold try_cache, try_except, call_get, log, on_world.
  unfold mbind, mret, M_bind, M_ret. simpl. rewrite Hget.
  replace (match catch with Some classes => classes | None => [] end)
    with (default [] catch) by by destruct catch.
  by rewrite Hcaught.
Qed.

(** With the default of [catch], no exception of the fetch is caught. *)
Lemma try_cache_default_catches_nothing get get_name store do_not_store r e w' :
  get (world r) = (Raised e, w') →
  try_cache get get_name store do_not_store default_catch r
  = (Raised e, mkRun w' (trace r ++ [EvGet])).
Proof. intros Hget. by apply try_cache_uncaught; [|apply isinstance_nil]. Qed.

(** C3. The code does not keep the claim for a fetch callable without
    [__name__]: when such a fetch raises an exception whose class is among
    the classes to catch, the handler raises [AttributeError] at
    [get.__name__], and that exception reaches the caller. The store callable
    is not invoked and the world is as the failed fetch left it. *)
Theorem try_cache_nameless_get_raises_in_handler
    get store do_not_store classes r e w' :
  get (world r) = (Raised e, w') →
  exc_class e ∈ classes →
  ∃ r', try_cache get None store do_not_store (Some classes) r
        = (Raised (mkExc AttributeError "__name__"), r')
      ∧ store_calls (trace r') = store_calls (trace r)
      ∧ world r' = w'.
Proof.
  intros Hget Hin. eexists. split.
  - apply (try_cache_caught_nameless _ _ _ _ _ e);
      [exact Hget | by apply isinstance_of_member].
  - simpl. split; [|done].
    rewrite !store_calls_app. simpl. by rewrite app_nil_r.
Qed.

(** X19. If the fetch has a [__name__] and raises an exception whose class is
    among the classes to catch, [try_cache] returns normally (the exception
    does not reach the caller), the store callable is not invoked, and the
    world is exactly as the failed fetch left it: whatever cached state the
    fetch itself did not touch is unchanged. *)
Theorem try_cache_retryable_error_keeps_cache
    get name store do_not_store classes r e w' :
  get (world r) = (Raised e, w') →
  exc_class e ∈ classes →
  ∃ r', try_cache get (Some name) store do_not_store (Some classes) r
        = (Returned (), r')
      ∧ store_calls (trace r') = store_calls (trace r)
      ∧ world r' = w'
      ∧ ∀ (C : Type) (cached : W → C),
          cached w' = cached (world r) → cached (world r') = cached (world r).
Proof.
  intros Hget Hin. eexists. split.
  - apply try_cache_caught; [exact Hget | by apply isinstance_of_member].
  - simpl. split; [|split; [done|auto]].
    rewrite !store_calls_app. simpl. by rewrite app_nil_r.
Qed.

(** C4. If the fetch returns a value different from the skip value, the store
    callable is invoked exactly once, with exactly that value, and the call
    ends the way that invocation ends. *)
Theorem try_cache_stores_fresh_value_once
    get get_name store do_not_store catch r v w' :
  get (world r) = (Returned v, w') →
  v ≠ do_not_store →
  ∃ o r', try_cache get get_name store do_not_store catch r = (o, r')
        ∧ store_calls (trace r') = store_calls (trace r) ++ [v]
        ∧ (o, world r') = store v w'.
Proof.
  intros Hget Hne.
  rewrite (try_cache_returned _ _ _ _ _ _ _ _ Hget).
  rewrite bool_decide_eq_true_2 by done.
  destruct (store v w') as [o w'']. eexists _, _. split; [done|].
  simpl. split; [|done]. by rewrite !store_calls_app.
Qed.

(** C10. The code does not keep the claim for a fetch callable without
    [__name__]: a fetch that returns the skip value is discarded and
    [try_cache] returns normally, but a fetch without [__name__] that raises
    a caught exception does not end the same way: [try_cache] raises
    [AttributeError]. In neither case is the store callable invoked. *)
Theorem try_cache_skip_returns_nameless_failure_raises
    get_skip skip_name get_fail store do_not_store classes r w1 e w2 :
  get_skip (world r) = (Returned do_not_store, w1) →
  get_fail (world r) = (Raised e, w2) →
  isinstance e classes = true →
  ∃ r1 r2,
    try_cache get_skip skip_name store do_not_store (Some classes) r
    = (Returned (), r1)
    ∧ try_cache get_fail None store do_not_store (Some classes) r
      = (Raised (mkExc AttributeError "__name__"), r2)
    ∧ store_calls (trace r1) = store_calls (trace r)
    ∧ store_calls (trace r2) = store_calls (trace r).
Proof.
  intros Hskip Hfail Hcaught. eexists _, _.
  split; [|split; [by apply (try_cache_caught_nameless _ _ _ _ _ e)|]].
  - rewrite (try_cache_returned _ _ _ _ _ _ _ _ Hskip).
    rewrite bool_decide_eq_false_2; [done|]. intros Hne. by apply Hne.
  - simpl. rewrite !store_calls_app. simpl. by rewrite !app_nil_r.
Qed.

(** X20. If the fetch returns a value equal to [do_not_store] (by default
    [None]), the store callable is not invoked and [try_cache] returns
    normally, whatever the fetch callable is; a fetch with a [__name__] that
    raises a caught exception ends the same way: no store, normal return. *)
Theorem try_cache_skip_value_not_stored
    get_skip skip_name get_fail fail_name store do_not_store classes r w1 e
    w2 :
  get_skip (world r) = (Returned do_not_store, w1) →
  get_fail (world r) = (Raised e, w2) →
  isinstance e classes = true →
  @default_do_not_store T = None
  ∧ ∃ r1 r2,
      (∀ catch, try_cache get_skip skip_name store do_not_store catch r
                = (Returned (), r1))
      ∧ try_cache get_fail (Some fail_name) store do_not_store (Some classes) r
        = (Returned (), r2)
      ∧ store_calls (trace r1) = store_calls (trace r)
      ∧ store_calls (trace r2) = store_calls (trace r)
      ∧ world r1 = w1.
Proof.
  intros Hskip Hfail Hcaught. split; [done|]. eexists _, _.
  split; [|split; [by apply try_cache_caught|]].
  - intros catch. rewrite (try_cache_returned _ _ _ _ _ _ _ _ Hskip).
    rewrite bool_decide_eq_false_2; [done|]. intros Hne. by apply Hne.
  - simpl. rewrite !store_calls_app. simpl. by rewrite !app_nil_r.
Qed.

End try_cache_facts.

(** ** Strings *)

Lemma split_nonempty sep s : split sep s ≠ [].
Proof.
  destruct s as [|a rest]; simpl; [done|].
  destruct (Ascii.eqb a sep); [done|]. by destruct (split sep rest).
Qed.

(** The first piece of a split is the text before the first separator. *)
Lemma split_head_append sep name rest :
  (∀ a, a ∈ list_ascii_of_string name → a ≠ sep) →
  hd EmptyString (split sep (name +:+ String sep rest)) = name.
Proof.
  induction name as [|a name IH]; intros Hfree; simpl.
  - by rewrite Ascii.eqb_refl.
  - destruct (Ascii.eqb_spec a sep) as [->|Hne].
    + exfalso. apply (Hfree sep); [|done]. simpl. left.
    + assert (Hrec : ∀ b, b ∈ list_ascii_of_string name → b ≠ sep).
      { intros b Hb. apply Hfree. simpl. by right. }
      specialize (IH Hrec).
      destruct (split sep (name +:+ String sep rest)) as [|piece pieces] eqn:E.
      * by apply split_nonempty in E.
      * simpl in *. by rewrite IH.
Qed.

(** Without a separator, the only piece is the whole text. *)
Lemma split_head_whole sep name :
  (∀ a, a ∈ list_ascii_of_string name → a ≠ sep) →
  split sep name = [name].
Proof.
  induction name as [|a name IH]; intros Hfree; simpl; [done|].
  destruct (Ascii.eqb_spec a sep) as [->|Hne].
  - exfalso. apply (Hfree sep); [|done]. simpl. left.
  - rewrite IH; [done|]. intros b Hb. apply Hfree. simpl. by right.
Qed.

Lemma substring_all s : String.substring 0 (String.length s) s = s.
Proof. induction s as [|a s IH]; simpl; [done|]. by rewrite IH. Qed.

Lemma substring_skip p s :
  String.substring (String.length p) (String.length s) (p +:+ s) = s.
Proof. induction p as [|a p IH]; simpl; [apply substring_all|exact IH]. Qed.

Lemma length_append p s :
  String.length (p +:+ s) = (String.length p + String.length s)%nat.
Proof. induction p as [|a p IH]; simpl; [done|]. by rewrite IH. Qed.

Lemma substring_split s m :
  (m ≤ String.length s)%nat →
  s = String.substring 0 m s +:+ String.substring m (String.length s - m) s.
Proof.
  revert m. induction s as [|a s IH]; intros m Hm; simpl in *.
  - by destruct m.
  - destruct m as [|m]; simpl.
    + by rewrite substring_all.
    + change (String a s
              = String a (String.substring 0 m s
                          +:+ String.substring m (String.length s - m) s)).
      f_equal. apply IH. lia.
Qed.

(** [endswith] holds exactly of the strings that end in the suffix. *)
Lemma endswith_spec s suffix :
  endswith s suffix = true ↔ ∃ p, s = p +:+ suffix.
Proof.
  unfold endswith. rewrite andb_true_iff, Nat.leb_le, String.eqb_eq. split.
  - intros [Hle Hsub]. remember (String.length suffix) as k eqn:Hk.
    exists (String.substring 0 (String.length s - k) s).
    rewrite <- Hsub.
    replace k with (String.length s - (String.length s - k))%nat at 3 by lia.
    apply substring_split. lia.
  - intros [p ->]. rewrite length_append. split; [lia|].
    replace (String.length p + String.length suffix - String.length suffix)%nat
      with (String.length p) by lia.
    apply substring_skip.
Qed.

(** ** The SQL file cache *)

Section sql_file_cache_facts.

Import SqlFileCache.

Implicit Types (st : state) (d : directory) (name : string).

(** The name of a file up to its first dot is its name without extension,
    for one extension ([name.sql]) as for two ([name.script.sql]). *)
Lemma stem_append name extension :
  (∀ a, a ∈ list_ascii_of_string name → a ≠ "."%char) →
  stem (name +:+ String "." extension) = name.
Proof. apply split_head_append. Qed.

Lemma stem_whole name :
  (∀ a, a ∈ list_ascii_of_string name → a ≠ "."%char) →
  stem name = name.
Proof. intros Hfree. unfold stem. by rewrite split_head_whole. Qed.

Example stem_of_statement_file :
  stem "get_user_configs.sql" = "get_user_configs".
Proof. reflexivity. Qed.

Example stem_of_script_file :
  stem "create_tables.script.sql" = "create_tables".
Proof. reflexivity. Qed.

(** What the scan of the directory finds, against [first_match]. *)
Lemma scan_first_match name d :
  match first_match name d with
  | Some f =>
      (∃ others,
         List.filter (λ path, String.eqb (stem path) name) (List.map fst d)
         = fst f :: others)
      ∧ List.find (λ g, String.eqb (fst g) (fst f)) d = Some f
      ∧ stem (fst f) = name
      ∧ f ∈ d
  | None =>
      List.filter (λ path, String.eqb (stem path) name) (List.map fst d) = []
      ∧ ∀ f, f ∈ d → stem (fst f) ≠ name
  end.
Proof.
  unfold first_match. induction d as [|g d IH]; simpl.
  - split; [done|]. intros f Hf. by apply elem_of_nil in Hf.
  - destruct (String.eqb_spec (stem (fst g)) name) as [Heq|Hne].
    + split; [by eexists|]. rewrite String.eqb_refl.
      split; [done|]. split; [done|]. left.
    + destruct (List.find _ d) as [f|].
      * destruct IH as ([others Hscan] & Hfind & Hstem & Hin).
        split; [by eexists|].
        split; [|split; [done|by right]].
        destruct (String.eqb_spec (fst g) (fst f)) as [Hsame|]; [|done].
        exfalso. apply Hne. by rewrite Hsame.
      * destruct IH as [Hscan Hnone]. split; [done|].
        intros f [->|Hf]%elem_of_cons; [done|by apply Hnone].
Qed.

Lemma first_match_none name d :
  first_match name d = None ↔ ∀ f, f ∈ d → stem (fst f) ≠ name.
Proof.
  pose proof (scan_first_match name d) as Hscan.
  destruct (first_match name d) as [f|].
  - destruct Hscan as (_ & _ & Hstem & Hin). split; [done|].
    intros Hnone. by destruct (Hnone f Hin).
  - by destruct Hscan.
Qed.

(** A successful read: one scan, one file opened, one entry written. *)
Lemma read_query_file_found name st fname content :
  first_match name (queries_dir st) = Some (fname, content) →
  read_query_file name st
  = (Returned (),
     mkState (queries_dir st)
       (<[name := mkQuery (endswith fname ".script.sql") content]>
          (query_cache st))
       (fs_log st ++ [Iterdir] ++ [OpenRead fname])).
Proof.
  intros Hfirst. pose proof (scan_first_match name (queries_dir st)) as Hscan.
  rewrite Hfirst in Hscan. destruct Hscan as ([others Hscan] & Hfind & _ & _).
  simpl in *.
  unfold read_query_file, try_except, iterdir, read_text, setitem_query_cache.
  unfold mbind, mret, M_bind, M_ret. simpl.
  rewrite Hscan. simpl. rewrite Hfind. simpl.
  unfold set_cache, accessed. simpl. by rewrite <- app_assoc.
Qed.

(** A failed read: one scan, then [ValueError]; the cache is not written. *)
Lemma read_query_file_missing name st :
  first_match name (queries_dir st) = None →
  read_query_file name st
  = (Raised (mkExc ValueError ("Query " +:+ name +:+ " does not exist")),
     mkState (queries_dir st) (query_cache st) (fs_log st ++ [Iterdir])).
Proof.
  intros Hfirst. pose proof (scan_first_match name (queries_dir st)) as Hscan.
  rewrite Hfirst in Hscan. destruct Hscan as [Hscan _].
  unfold read_query_file, try_except, iterdir.
  unfold mbind, mret, M_bind, M_ret. simpl.
  by rewrite Hscan.
Qed.

Lemma first_match_decomposed name before fname content after :
  (∀ g, g ∈ before → stem (fst g) ≠ name) →
  stem fname = name →
  first_match name (before ++ (fname, content) :: after)
  = Some (fname, content).
Proof.
  intros Hbefore Hstem. unfold first_match.
  induction before as [|g before IH]; simpl.
  - rewrite Hstem, String.eqb_refl. done.
  - destruct (String.eqb_spec (stem (fst g)) name) as [Heq|_].
    + exfalso. by apply (Hbefore g); [left|].
    + apply IH. intros h Hh. apply Hbefore. by right.
Qed.

(** A request for a name that is cached touches nothing. *)
Lemma cache_named_query_hit name st :
  is_Some (query_cache st !! name) →
  cache_named_query name st = (Returned (), st).
Proof.
  intros Hsome. unfold cache_named_query.
  rewrite bool_decide_eq_false_2; [done|].
  intros Hnot. apply not_elem_of_dom in Hnot.
  rewrite Hnot in Hsome. by destruct Hsome.
Qed.

(** A request for a name that is not cached reads the file. *)
Lemma cache_named_query_miss name st :
  query_cache st !! name = None →
  cache_named_query name st = read_query_file name st.
Proof.
  intros Hnone. unfold cache_named_query.
  rewrite bool_decide_eq_true_2; [done|]. by apply not_elem_of_dom.
Qed.

(** A request that returns leaves an entry for its name. *)
Lemma cache_named_query_returned name st st1 :
  cache_named_query name st = (Returned (), st1) →
  is_Some (query_cache st1 !! name).
Proof.
  destruct (query_cache st !! name) as [q|] eqn:Hq.
  - rewrite cache_named_query_hit by (by rewrite Hq).
    intros [= <-]. by rewrite Hq.
  - rewrite cache_named_query_miss by done.
    destruct (first_match name (queries_dir st)) as [[fname content]|] eqn:Hf.
    + rewrite (read_query_file_found _ _ _ _ Hf). intros [= <-]. simpl.
      by rewrite lookup_insert_eq.
    + by rewrite (read_query_file_missing _ _ Hf).
Qed.

(** An entry stays as it is under every action but a clearing. *)
Lemma act_keeps_entry a name st :
  a ≠ ActClear →
  is_Some (query_cache st !! name) →
  query_cache (snd (act a st)) !! name = query_cache st !! name.
Proof.
  intros Hclear Hsome. destruct a as [other|d|]; simpl; [|done|done].
  destruct (query_cache st !! other) as [q|] eqn:Hq.
  - by rewrite cache_named_query_hit by (by rewrite Hq).
  - rewrite cache_named_query_miss by done.
    assert (other ≠ name) as Hne.
    { intros ->. rewrite Hq in Hsome. by destruct Hsome. }
    destruct (first_match other (queries_dir st)) as [[fname content]|] eqn:Hf.
    + rewrite (read_query_file_found _ _ _ _ Hf). simpl.
      by rewrite lookup_insert_ne.
    + by rewrite (read_query_file_missing _ _ Hf).
Qed.

Lemma acts_keep_entry l name st :
  ActClear ∉ l →
  is_Some (query_cache st !! name) →
  query_cache (acts l st) !! name = query_cache st !! name.
Proof.
  revert st. induction l as [|a l IH]; intros st Hclear Hsome; [done|].
  apply not_elem_of_cons in Hclear as [Hne Hclear].
  change (acts (a :: l) st) with (acts l (snd (act a st))).
  assert (query_cache (snd (act a st)) !! name = query_cache st !! name) as Hstep
    by (by apply act_keeps_entry).
  rewrite IH; [done|done|by rewrite Hstep].
Qed.

(** C5. Once a call of [cache_named_query] has returned for a name, then
    after any further requests and edits of the directory, but no clearing,
    a second call for the name returns without any access to the directory
    and the entry for the name is the one the first call left. After a
    clearing, the next call reads the directory again and caches the
    definition that is there then. *)
Theorem cache_named_query_idempotent_until_cleared name st st1 l :
  cache_named_query name st = (Returned (), st1) →
  ActClear ∉ l →
  is_Some (query_cache st1 !! name)
  ∧ cache_named_query name (acts l st1) = (Returned (), acts l st1)
  ∧ query_cache (acts l st1) !! name = query_cache st1 !! name
  ∧ ∀ before fname content after,
      (∀ g, g ∈ before → stem (fst g) ≠ name) →
      stem fname = name →
      ∃ st3,
        cache_named_query name
          (acts [ActEditDir (before ++ (fname, content) :: after); ActClear]
                (acts l st1))
        = (Returned (), st3)
        ∧ query_cache st3 !! name
          = Some (mkQuery (endswith fname ".script.sql") content)
        ∧ fs_log st3 = fs_log (acts l st1) ++ [Iterdir; OpenRead fname].
Proof.
  intros Hfirst Hclear.
  pose proof (cache_named_query_returned _ _ _ Hfirst) as Hsome.
  pose proof (acts_keep_entry l name st1 Hclear Hsome) as Hkept.
  split; [done|]. split.
  { apply cache_named_query_hit. by rewrite Hkept. }
  split; [done|].
  intros before fname content after Hbefore Hstem. simpl.
  rewrite cache_named_query_miss by apply lookup_empty.
  erewrite read_query_file_found
    by (simpl; by apply first_match_decomposed).
  eexists. split; [done|]. simpl. split; [|done].
  by rewrite lookup_insert_eq.
Qed.

(** C6. [read_query_file] raises the error for a missing query exactly when
    no file of the directory has the requested name as its name up to the
    first dot; when it raises, the cache is as it was. *)
Theorem read_query_file_fails_iff_no_match name st :
  ((∃ e st', read_query_file name st = (Raised e, st'))
   ↔ ∀ f, f ∈ queries_dir st → stem (fst f) ≠ name)
  ∧ ∀ e st', read_query_file name st = (Raised e, st') →
      e = mkExc ValueError ("Query " +:+ name +:+ " does not exist")
      ∧ query_cache st' = query_cache st.
Proof.
  rewrite <- first_match_none.
  destruct (first_match name (queries_dir st)) as [[fname content]|] eqn:Hf.
  - rewrite (read_query_file_found _ _ _ _ Hf). split; [|done].
    split; [by intros (e & st' & ?)|done].
  - rewrite (read_query_file_missing _ _ Hf). split.
    + split; [done|]. intros _. by eexists _, _.
    + by intros e st' [= <- <-].
Qed.

(** C8. [read_query_file] takes the first file of the directory whose name up
    to the first dot is the query name, and caches under that name a
    definition whose text is the whole content of the file and whose script
    flag is set exactly when the name of the file ends in [.script.sql]. *)
Theorem read_query_file_caches_matched_file
    name st before fname content after :
  queries_dir st = before ++ (fname, content) :: after →
  (∀ g, g ∈ before → stem (fst g) ≠ name) →
  stem fname = name →
  ∃ st' q,
    read_query_file name st = (Returned (), st')
    ∧ query_cache st' !! name = Some q
    ∧ query q = content
    ∧ (script q = true ↔ ∃ p, fname = p +:+ ".script.sql").
Proof.
  intros Hdir Hbefore Hstem.
  erewrite read_query_file_found
    by (rewrite Hdir; by apply first_match_decomposed).
  eexists _, _. split; [done|]. simpl.
  split; [by rewrite lookup_insert_eq|]. simpl.
  split; [done|apply endswith_spec].
Qed.

End sql_file_cache_facts.

(** ** Lists *)

Lemma elem_of_map {A B} (f : A → B) (l : list A) (b : B) :
  b ∈ List.map f l ↔ ∃ a, f a = b ∧ a ∈ l.
Proof.
  rewrite list_elem_of_In, in_map_iff.
  split; intros (a & Hfa & Hin); exists a; split; try done;
    by apply list_elem_of_In.
Qed.

Lemma elem_of_filter_bool {A} (f : A → bool) (l : list A) (a : A) :
  a ∈ List.filter f l ↔ a ∈ l ∧ f a = true.
Proof. by rewrite !list_elem_of_In, filter_In. Qed.

(** ** [get_new_posts_for_user] over any two queries *)

Section get_new_posts_facts.

Import Database.

Context {Conn TP PR : Type} `{Row TP, Row PR}.

Variable query_a : Conn → string → Z → list TP.
Variable query_b : Conn → string → Z → list PR.

Lemma post_replies_are_query_b conn uid ts :
  post_replies (get_new_posts_for_user query_a query_b conn uid ts)
  = query_b conn uid ts.
Proof. reflexivity. Qed.

Lemma elem_of_thread_posts conn uid ts (row : TP) :
  row ∈ thread_posts (get_new_posts_for_user query_a query_b conn uid ts)
  ↔ row ∈ query_a conn uid ts
    ∧ row_id row ∉ List.map row_id (query_b conn uid ts).
Proof.
  unfold get_new_posts_for_user. simpl. rewrite list_elem_of_filter. tauto.
Qed.

(** A candidate of the first query is in the payload under one of the two
    headings. *)
Lemma candidate_stays conn uid ts (row : TP) :
  row ∈ query_a conn uid ts →
  row ∈ thread_posts (get_new_posts_for_user query_a query_b conn uid ts)
  ∨ row_id row
    ∈ List.map row_id
        (post_replies (get_new_posts_for_user query_a query_b conn uid ts)).
Proof.
  intros Hin. rewrite elem_of_thread_posts, post_replies_are_query_b.
  destruct (decide (row_id row ∈ List.map row_id (query_b conn uid ts)));
    [by right|by left].
Qed.

(** C1. The two lists of the payload share no ID: a post that both queries
    return is among the post replies and not among the thread posts, and no
    ID is found in both lists. *)
Theorem get_new_posts_for_user_lists_disjoint conn uid ts :
  let payload := get_new_posts_for_user query_a query_b conn uid ts in
  (∀ i, i ∈ List.map row_id (query_a conn uid ts) →
        i ∈ List.map row_id (query_b conn uid ts) →
        i ∈ List.map row_id (post_replies payload)
        ∧ i ∉ List.map row_id (thread_posts payload))
  ∧ (∀ i, i ∈ List.map row_id (thread_posts payload) →
          i ∉ List.map row_id (post_replies payload)).
Proof.
  assert (Hdisjoint :
    ∀ i, i ∈ List.map row_id
               (thread_posts
                  (get_new_posts_for_user query_a query_b conn uid ts)) →
         i ∉ List.map row_id (query_b conn uid ts)).
  { intros i (row & <- & Hrow)%elem_of_map.
    by apply elem_of_thread_posts in Hrow as [_ ?]. }
  simpl. split.
  - intros i _ Hb. split; [done|]. intros Ha. by apply (Hdisjoint i).
  - exact Hdisjoint.
Qed.


End get_new_posts_facts.

(** ** The payload over the two modelled queries *)

Section queries_facts.

Import Database Queries.

Variable thread_muted : cache → string → bool.
Variable thread_sub_covers_posts : bool.

Implicit Types (db : cache) (p q : RawPost) (subs : list Subscription).

Lemma has_sub_true subs dir t post_id :
  has_sub subs dir t post_id = true ↔ mkSubscription t post_id dir ∈ subs.
Proof.
  unfold has_sub. rewrite existsb_exists. split.
  - intros ([t' p' dir'] & Hin & Hs). apply bool_decide_eq_true in Hs.
    simpl in Hs. destruct Hs as (-> & -> & ->). by apply list_elem_of_In.
  - intros Hin. exists (mkSubscription t post_id dir).
    split; [by apply list_elem_of_In|]. by apply bool_decide_eq_true.
Qed.

Lemma elem_of_query_a db uid ts p :
  p ∈ get_posts_in_subscribed_threads thread_muted db uid ts
  ↔ p ∈ post db
    ∧ thread_subscribed (subscriptions_of db uid) (thread_id p) = true
    ∧ post_unsubscribed (subscriptions_of db uid) p = false
    ∧ thread_muted db (thread_id p) = false
    ∧ ts ≤ posted_timestamp p.
Proof.
  unfold get_posts_in_subscribed_threads. simpl.
  rewrite elem_of_filter_bool, !andb_true_iff, !negb_true_iff, Z.leb_le.
  tauto.
Qed.

Lemma elem_of_query_b db uid ts p :
  p ∈ get_replies_to_subscribed_posts thread_muted thread_sub_covers_posts
        db uid ts
  ↔ p ∈ post db
    ∧ (∃ parent, parent_post_id p = Some parent
        ∧ post_subscribed thread_sub_covers_posts (subscriptions_of db uid)
            (thread_id p) parent = true)
    ∧ post_unsubscribed (subscriptions_of db uid) p = false
    ∧ thread_muted db (thread_id p) = false
    ∧ ts ≤ posted_timestamp p.
Proof.
  unfold get_replies_to_subscribed_posts. simpl.
  rewrite elem_of_filter_bool, !andb_true_iff, !negb_true_iff, Z.leb_le.
  destruct (parent_post_id p) as [parent|].
  - split.
    + intros (? & ((? & ?) & ?) & ?). eauto 10.
    + intros (? & (? & [= <-] & ?) & ? & ? & ?). done.
  - split.
    + by intros (? & ((? & ?) & ?) & ?).
    + by intros (? & (? & ? & ?) & ?).
Qed.

(** Every row of the payload is a candidate of one of the two queries. *)
Lemma elem_of_payload db uid ts p :
  p ∈ thread_posts (new_posts_for_user thread_muted thread_sub_covers_posts
                      db uid ts)
      ++ post_replies (new_posts_for_user thread_muted thread_sub_covers_posts
                         db uid ts) →
  p ∈ get_posts_in_subscribed_threads thread_muted db uid ts
  ∨ p ∈ get_replies_to_subscribed_posts thread_muted thread_sub_covers_posts
          db uid ts.
Proof.
  unfold new_posts_for_user. intros [Hin|Hin]%elem_of_app.
  - left. by apply elem_of_thread_posts in Hin as [? _].
  - by right.
Qed.

(** Nothing is notified as a reply to a post the user has unsubscribed
    from. *)
Lemma no_reply_via_unsubscribed_post db uid ts p parent :
  mkSubscription (thread_id p) (Some parent) Minus1 ∈ subscriptions_of db uid →
  parent_post_id p = Some parent →
  p ∉ get_replies_to_subscribed_posts thread_muted thread_sub_covers_posts
        db uid ts.
Proof.
  intros Hminus Hparent (_ & (parent' & Hparent' & Hsub) & _)%elem_of_query_b.
  rewrite Hparent in Hparent'. injection Hparent' as <-.
  unfold post_subscribed in Hsub. apply andb_true_iff in Hsub as [_ Hsub].
  apply negb_true_iff in Hsub. apply has_sub_true in Hminus. congruence.
Qed.

(** C2. For a user with a [+1] for thread [T] and a [-1] for post [P] of [T]:
    no row of the payload is post [P] of [T]; a reply to [P] that is not a
    candidate as thread post (one notified through [P] only) is not in the
    payload; every other stored post of [T] that matches the thread
    subscription (the thread not unsubscribed as a whole nor muted, the post
    not unsubscribed itself) and is not before the search timestamp is in
    the payload. *)
Theorem unsubscribed_post_excluded_others_kept db uid ts T P :
  mkSubscription T None Plus1 ∈ subscriptions_of db uid →
  mkSubscription T (Some P) Minus1 ∈ subscriptions_of db uid →
  let payload :=
    new_posts_for_user thread_muted thread_sub_covers_posts db uid ts in
  (∀ p, p ∈ thread_posts payload ++ post_replies payload →
        ¬ (thread_id p = T ∧ id p = P))
  ∧ (∀ r, thread_id r = T → parent_post_id r = Some P →
          r ∉ get_posts_in_subscribed_threads thread_muted db uid ts →
          r ∉ thread_posts payload ++ post_replies payload)
  ∧ (∀ q, q ∈ post db → thread_id q = T → id q ≠ P →
          has_sub (subscriptions_of db uid) Minus1 T None = false →
          has_sub (subscriptions_of db uid) Minus1 T (Some (id q)) = false →
          thread_muted db T = false →
          ts ≤ posted_timestamp q →
          q ∈ thread_posts payload
          ∨ id q ∈ List.map row_id (post_replies payload)).
Proof.
  intros Hplus Hminus payload. split; [|split].
  - intros p Hin [HT HP].
    assert (post_unsubscribed (subscriptions_of db uid) p = true) as Hunsub.
    { unfold post_unsubscribed. rewrite HT, HP. by apply has_sub_true. }
    apply elem_of_payload in Hin as [Ha|Hb].
    + apply elem_of_query_a in Ha as (_ & _ & Hno & _). congruence.
    + apply elem_of_query_b in Hb as (_ & _ & Hno & _). congruence.
  - intros r HT Hparent Hsolely Hin.
    apply elem_of_payload in Hin as [Ha|Hb]; [done|].
    revert Hb. apply no_reply_via_unsubscribed_post with P; [by rewrite HT|done].
  - intros q Hq HT HP HnoT Hnoq Hmuted Hts.
    apply (candidate_stays (get_posts_in_subscribed_threads thread_muted)).
    apply elem_of_query_a. rewrite HT.
    split; [done|]. split; [|split; [|done]].
    + unfold thread_subscribed. rewrite HnoT.
      apply has_sub_true in Hplus. by rewrite Hplus.
    + unfold post_unsubscribed. by rewrite HT.
Qed.

End queries_facts.

(** The scenarios of the spec, under the reading in which a subscription to
    a thread covers its posts, over the window that starts at 0 and holds
    [P1] and [P2]. *)

Example scenario_thread_subscription :
  Queries.new_posts_for_user Sample.no_override true
    (Queries.mkCache [Sample.P1; Sample.P2]
                     [Sample.U [mkSubscription "T" None Plus1]]) "U" 0
  = mkNewPostsInfo [Sample.P1] [Sample.P2].
Proof. reflexivity. Qed.

Example scenario_thread_unsubscribed :
  Queries.new_posts_for_user Sample.no_override true
    (Queries.mkCache [Sample.P1; Sample.P2]
                     [Sample.U [mkSubscription "T" None Plus1;
                                mkSubscription "T" None Minus1]]) "U" 0
  = mkNewPostsInfo [] [].
Proof. reflexivity. Qed.

Example scenario_thread_muted :
  Queries.new_posts_for_user Sample.mute_T true
    (Queries.mkCache [Sample.P1; Sample.P2]
                     [Sample.U [mkSubscription "T" None Plus1]]) "U" 0
  = mkNewPostsInfo [] [].
Proof. reflexivity. Qed.


(** ** The scheduled tasks *)

Section tasks_facts.

Import Tasks.

Context {W U : Type}.

Variable get_new_posts : W → outcome () * W.
Variable get_users : W → outcome (list U) * W.

(** C9, amended. [execute] of every task calls [get_users] and keeps the
    result in a local variable; the hourly task calls [get_new_posts] before
    that (and stops there if that call raises); these are all the calls a
    task makes: none computes a digest or stores a last-notified time. *)
Theorem execute_only_fetches task (r : run W (call U)) :
  trace (snd (execute get_new_posts get_users task r))
  = trace r
    ++ match task with
       | Hourly =>
           CallGetNewPosts
           :: match fst (get_new_posts (world r)) with
              | Returned _ => [CallGetUsers]
              | Raised _ => []
              end
       | Daily | Weekly | Monthly => [CallGetUsers]
       end.
Proof.
  destruct task; unfold execute, call_get_new_posts, call_get_users, log,
    on_world; unfold mbind, mret, M_bind, M_ret; simpl.
  - destruct (get_new_posts (world r)) as [[[]|e] w1]; simpl; [|done].
    destruct (get_users w1) as [[users|e] w2]; simpl; by rewrite <- app_assoc.
  - by destruct (get_users (world r)) as [[users|e] w2].
  - by destruct (get_users (world r)) as [[users|e] w2].
  - by destruct (get_users (world r)) as [[users|e] w2].
Qed.

End tasks_facts.

(** ** The properties at the sample data *)

Lemma try_cache_retryable_error_keeps_cache_witness :
  ∃ r',
    TryCache.try_cache Sample.fetch_times_out (Some "fetch_users") Sample.store_users
      None (Some [Sample.ConnectionError]) (mkRun ["carol"] [])
    = (Returned (), r')
    ∧ TryCache.store_calls (trace r') = []
    ∧ world r' = ["carol"]
    ∧ ∀ (C : Type) (cached : list string → C),
        cached ["carol"] = cached ["carol"] →
        cached (world r') = cached ["carol"].
Proof.
  apply (try_cache_retryable_error_keeps_cache Sample.fetch_times_out
           "fetch_users" Sample.store_users None [Sample.ConnectionError]
           (mkRun ["carol"] []) (mkExc Sample.ConnectionError "timed out")
           ["carol"]).
  - reflexivity.
  - simpl. left.
Defined.

Lemma try_cache_stores_fresh_value_once_witness :
  ∃ o r',
    TryCache.try_cache Sample.fetch_users (Some "fetch_users") Sample.store_users
      None None (mkRun ["carol"] [])
    = (o, r')
    ∧ TryCache.store_calls (trace r') = [] ++ [Some ["alice"; "bob"]]
    ∧ (o, world r') = (Returned (), ["alice"; "bob"]).
Proof.
  apply (try_cache_stores_fresh_value_once Sample.fetch_users
           (Some "fetch_users")
           Sample.store_users None None (mkRun ["carol"] [])
           (Some ["alice"; "bob"]) ["carol"]).
  - reflexivity.
  - discriminate.
Defined.

Lemma try_cache_skip_value_not_stored_witness :
  @TryCache.default_do_not_store (list string) = None
  ∧ ∃ r1 r2,
      (∀ catch,
         TryCache.try_cache Sample.fetch_nothing (Some "fetch_users")
           Sample.store_users None catch (mkRun ["carol"] [])
         = (Returned (), r1))
      ∧ TryCache.try_cache Sample.fetch_times_out (Some "fetch_users")
          Sample.store_users None (Some [Sample.ConnectionError])
          (mkRun ["carol"] [])
        = (Returned (), r2)
      ∧ TryCache.store_calls (trace r1) = []
      ∧ TryCache.store_calls (trace r2) = []
      ∧ world r1 = ["carol"].
Proof.
  apply (try_cache_skip_value_not_stored Sample.fetch_nothing
           (Some "fetch_users") Sample.fetch_times_out "fetch_users"
           Sample.store_users None
           [Sample.ConnectionError] (mkRun ["carol"] []) ["carol"]
           (mkExc Sample.ConnectionError "timed out") ["carol"]).
  - reflexivity.
  - reflexivity.
  - reflexivity.
Defined.

Ltac in_list :=
  apply list_elem_of_In; vm_compute; repeat first [by left | right].

Lemma cache_named_query_idempotent_until_cleared_witness :
  is_Some (SqlFileCache.query_cache Sample.served_once !! "get_user_configs")
  ∧ SqlFileCache.cache_named_query "get_user_configs"
      (SqlFileCache.acts Sample.busy Sample.served_once)
    = (Returned (), SqlFileCache.acts Sample.busy Sample.served_once)
  ∧ SqlFileCache.query_cache
      (SqlFileCache.acts Sample.busy Sample.served_once) !! "get_user_configs"
    = SqlFileCache.query_cache Sample.served_once !! "get_user_configs"
  ∧ ∀ before fname content after,
      (∀ g, g ∈ before → SqlFileCache.stem (fst g) ≠ "get_user_configs") →
      SqlFileCache.stem fname = "get_user_configs" →
      ∃ st3,
        SqlFileCache.cache_named_query "get_user_configs"
          (SqlFileCache.acts
             [SqlFileCache.ActEditDir (before ++ (fname, content) :: after);
              SqlFileCache.ActClear]
             (SqlFileCache.acts Sample.busy Sample.served_once))
        = (Returned (), st3)
        ∧ SqlFileCache.query_cache st3 !! "get_user_configs"
          = Some (SqlFileCache.mkQuery
                    (endswith fname ".script.sql") content)
        ∧ SqlFileCache.fs_log st3
          = SqlFileCache.fs_log
              (SqlFileCache.acts Sample.busy Sample.served_once)
            ++ [SqlFileCache.Iterdir; SqlFileCache.OpenRead fname].
Proof.
  apply (cache_named_query_idempotent_until_cleared "get_user_configs"
           (SqlFileCache.init Sample.queries_v1) Sample.served_once
           Sample.busy).
  - reflexivity.
  - unfold Sample.busy. rewrite !not_elem_of_cons. repeat split; try done.
    apply not_elem_of_nil.
Defined.

Lemma read_query_file_caches_matched_file_witness :
  ∃ st' q,
    SqlFileCache.read_query_file "create_tables"
      (SqlFileCache.init Sample.queries_v1)
    = (Returned (), st')
    ∧ SqlFileCache.query_cache st' !! "create_tables" = Some q
    ∧ SqlFileCache.query q = "CREATE TABLE post (id TEXT);"
    ∧ (SqlFileCache.script q = true
       ↔ ∃ p, "create_tables.script.sql" = p +:+ ".script.sql").
Proof.
  apply (read_query_file_caches_matched_file "create_tables"
           (SqlFileCache.init Sample.queries_v1) []
           "create_tables.script.sql" "CREATE TABLE post (id TEXT);"
           [("get_user_configs.sql", "SELECT * FROM user_config")]).
  - reflexivity.
  - intros g Hg. by apply elem_of_nil in Hg.
  - reflexivity.
Defined.

Lemma unsubscribed_post_excluded_others_kept_witness :
  let payload :=
    Queries.new_posts_for_user Sample.no_override false
      (Sample.db Sample.T_without_P1) "U" 0 in
  (∀ p, p ∈ thread_posts payload ++ post_replies payload →
        ¬ (thread_id p = "T" ∧ id p = "P1"))
  ∧ (∀ r, thread_id r = "T" → parent_post_id r = Some "P1" →
          r ∉ Queries.get_posts_in_subscribed_threads Sample.no_override
                (Sample.db Sample.T_without_P1) "U" 0 →
          r ∉ thread_posts payload ++ post_replies payload)
  ∧ (∀ q, q ∈ Queries.post (Sample.db Sample.T_without_P1) →
          thread_id q = "T" → id q ≠ "P1" →
          Queries.has_sub
            (Queries.subscriptions_of (Sample.db Sample.T_without_P1) "U")
            Minus1 "T" None = false →
          Queries.has_sub
            (Queries.subscriptions_of (Sample.db Sample.T_without_P1) "U")
            Minus1 "T" (Some (id q)) = false →
          Sample.no_override (Sample.db Sample.T_without_P1) "T" = false →
          0 ≤ posted_timestamp q →
          q ∈ thread_posts payload
          ∨ id q ∈ List.map Database.row_id (post_replies payload)).
Proof.
  apply (unsubscribed_post_excluded_others_kept Sample.no_override false
           (Sample.db Sample.T_without_P1) "U" 0 "T" "P1").
  - in_list.
  - in_list.
Defined.

(** With [P1] unsubscribed, the payload at the sample data holds the other
    two posts of [T]. *)
Example payload_without_P1 :
  Queries.new_posts_for_user Sample.no_override false
    (Sample.db Sample.T_without_P1) "U" 0
  = mkNewPostsInfo [Sample.P2; Sample.P3] [].
Proof. reflexivity. Qed.

(** C9, as stated, fails: the daily task is given one user by [get_users]
    and makes no call that computes a digest for that user. *)
Lemma daily_execute_computes_no_digest :
  fst (Sample.get_users ()) = Returned ["U"]
  ∧ ¬ (∀ u, u ∈ ["U"] →
         Tasks.CallGetNewPostsForUser u
         ∈ trace (snd (Tasks.execute Sample.get_new_posts Sample.get_users
                         Tasks.Daily (mkRun () [])))).
Proof.
  split; [reflexivity|]. intros Hdigest.
  assert (Tasks.CallGetNewPostsForUser "U"
          ∈ [@Tasks.CallGetUsers string]) as Hin
    by (apply (Hdigest "U"); left).
  apply list_elem_of_singleton in Hin. discriminate Hin.
Qed.

(** * Further properties of the code *)

(** ** [try_cache]: what is not caught, and how often the callables run *)

Section try_cache_more.

Import TryCache Trace.

Context {W T : Type} `{EqDecision T}.

Implicit Types (r : run W (event (option T))) (v : option T).

Lemma get_calls_app (t1 t2 : list (event (option T))) :
  get_calls (t1 ++ t2) = (get_calls t1 + get_calls t2)%nat.
Proof. unfold get_calls. by rewrite List.filter_app, length_app. Qed.

Lemma printed_app (t1 t2 : list (event (option T))) :
  printed (t1 ++ t2) = printed t1 ++ printed t2.
Proof. unfold printed. apply omap_app. Qed.

(** X1. An exception of the fetch that is an instance of none of the classes
    to catch (with the default of [catch], any exception) reaches the caller
    of [try_cache]; nothing is stored and nothing is printed. *)
Theorem try_cache_other_error_propagates
    get get_name store do_not_store catch r e w' :
  get (world r) = (Raised e, w') →
  isinstance e (default [] catch) = false →
  ∃ r', try_cache get get_name store do_not_store catch r = (Raised e, r')
      ∧ store_calls (trace r') = store_calls (trace r)
      ∧ printed (trace r') = printed (trace r)
      ∧ world r' = w'.
Proof.
  intros Hget Hnot. eexists. split; [by apply try_cache_uncaught|].
  simpl. rewrite store_calls_app, printed_app. simpl.
  by rewrite !app_nil_r.
Qed.

(** X2. The [try] covers the fetch only: an exception of the store callable
    reaches the caller of [try_cache] whatever [catch] holds, after the one
    invocation of the store. *)
Theorem try_cache_store_error_propagates
    get get_name store do_not_store catch r v w' e w'' :
  get (world r) = (Returned v, w') →
  v ≠ do_not_store →
  store v w' = (Raised e, w'') →
  ∃ r', try_cache get get_name store do_not_store catch r = (Raised e, r')
      ∧ store_calls (trace r') = store_calls (trace r) ++ [v]
      ∧ printed (trace r') = printed (trace r)
      ∧ world r' = w''.
Proof.
  intros Hget Hne Hstore.
  rewrite (try_cache_returned _ _ _ _ _ _ _ _ Hget).
  rewrite bool_decide_eq_true_2 by done. rewrite Hstore.
  eexists. split; [done|]. simpl.
  rewrite !store_calls_app, !printed_app. simpl. by rewrite !app_nil_r.
Qed.

(** X3. Whatever the callables do, a call of [try_cache] invokes the fetch
    exactly once and the store at most once, and a value it stores is the one
    the fetch returned and differs from [do_not_store]. *)
Theorem try_cache_one_get_at_most_one_store
    get get_name store do_not_store catch r :
  get_calls (trace (snd (try_cache get get_name store do_not_store catch r)))
  = S (get_calls (trace r))
  ∧ ∃ stored,
      store_calls
        (trace (snd (try_cache get get_name store do_not_store catch r)))
      = store_calls (trace r) ++ stored
      ∧ (length stored ≤ 1)%nat
      ∧ ∀ v, v ∈ stored →
          fst (get (world r)) = Returned v ∧ v ≠ do_not_store.
Proof.
  destruct (get (world r)) as [[v|e] w'] eqn:Hget.
  - rewrite (try_cache_returned _ _ _ _ _ _ _ _ Hget).
    case_bool_decide as Hne.
    + destruct (store v w') as [o w'']. simpl.
      rewrite !get_calls_app, !store_calls_app. simpl.
      split; [unfold get_calls; simpl; lia|]. exists [v]. split; [done|]. split; [simpl; lia|].
      by intros v' ->%list_elem_of_singleton.
    + simpl. rewrite !get_calls_app, !store_calls_app. simpl.
      split; [unfold get_calls; simpl; lia|]. exists []. split; [done|]. split; [simpl; lia|].
      by intros v' ?%elem_of_nil.
  - destruct (isinstance e (default [] catch)) eqn:Hcaught.
    + destruct get_name as [name|].
      * rewrite (try_cache_caught _ _ _ _ _ _ _ _ Hget Hcaught). simpl.
        rewrite !get_calls_app, !store_calls_app. simpl.
        split; [unfold get_calls; simpl; lia|].
        exists []. split; [done|]. split; [simpl; lia|].
        by intros v' ?%elem_of_nil.
      * rewrite (try_cache_caught_nameless _ _ _ _ _ _ _ Hget Hcaught). simpl.
        rewrite !get_calls_app, !store_calls_app. simpl.
        split; [unfold get_calls; simpl; lia|].
        exists []. split; [done|]. split; [simpl; lia|].
        by intros v' ?%elem_of_nil.
    + rewrite (try_cache_uncaught _ _ _ _ _ _ _ _ Hget Hcaught). simpl.
      rewrite !get_calls_app, !store_calls_app. simpl.
      split; [unfold get_calls; simpl; lia|]. exists []. split; [done|]. split; [simpl; lia|].
      by intros v' ?%elem_of_nil.
Qed.

(** X4. [try_cache] prints exactly when it catches an exception of a fetch
    that has a [__name__]: then two lines, the first with the name of the
    fetch callable and the second with the message of the exception. When the
    fetch returns, when its exception is not caught, and when the fetch has
    no [__name__] (the handler then raises before its first [print]), nothing
    is printed. *)
Theorem try_cache_prints_when_catching
    get get_name store do_not_store catch r :
  printed (trace (snd (try_cache get get_name store do_not_store catch r)))
  = printed (trace r)
    ++ match fst (get (world r)), get_name with
       | Raised e, Some name =>
           if isinstance e (default [] catch)
           then [name +:+ " failed; will use value from cache";
                 "Failure: " +:+ exc_msg e]
           else []
       | Raised e, None => []
       | Returned _, _ => []
       end.
Proof.
  destruct (get (world r)) as [[v|e] w'] eqn:Hget; simpl.
  - rewrite (try_cache_returned _ _ _ _ _ _ _ _ Hget).
    case_bool_decide; [destruct (store v w') as [o w'']|]; simpl;
      rewrite !printed_app; simpl; by rewrite !app_nil_r.
  - destruct (isinstance e (default [] catch)) eqn:Hcaught.
    + destruct get_name as [name|].
      * rewrite (try_cache_caught _ _ _ _ _ _ _ _ Hget Hcaught). simpl.
        by rewrite !printed_app.
      * rewrite (try_cache_caught_nameless _ _ _ _ _ _ _ Hget Hcaught).
        simpl. rewrite !printed_app. simpl. by rewrite !app_nil_r.
    + rewrite (try_cache_uncaught _ _ _ _ _ _ _ _ Hget Hcaught). simpl.
      rewrite !printed_app. simpl. destruct get_name; by rewrite !app_nil_r.
Qed.

End try_cache_more.

(** ** The SQL file cache: names, misses, clearing *)

Section sql_file_cache_more.

Import SqlFileCache.

Implicit Types (st : state) (d : directory) (name : string).

(** The first piece of a split holds no separator. *)
Lemma split_head_free sep s a :
  a ∈ list_ascii_of_string (hd EmptyString (split sep s)) → a ≠ sep.
Proof.
  revert a. induction s as [|b s IH]; intros a; simpl.
  - by intros ?%elem_of_nil.
  - destruct (Ascii.eqb_spec b sep) as [->|Hne]; simpl.
    + by intros ?%elem_of_nil.
    + destruct (split sep s) as [|piece pieces] eqn:E.
      * by apply split_nonempty in E.
      * simpl in *. intros [->|Hin]%elem_of_cons; [done|by apply IH].
Qed.

Lemma chars_of_append s1 s2 :
  list_ascii_of_string (s1 +:+ s2)
  = list_ascii_of_string s1 ++ list_ascii_of_string s2.
Proof. induction s1 as [|a s1 IH]; simpl; [done|]. by rewrite IH. Qed.

Lemma chars_inj s1 s2 :
  list_ascii_of_string s1 = list_ascii_of_string s2 → s1 = s2.
Proof.
  intros Heq. rewrite <- (string_of_list_ascii_of_string s1).
  rewrite <- (string_of_list_ascii_of_string s2). by rewrite Heq.
Qed.

Lemma append_cancel_r s1 s2 suffix :
  s1 +:+ suffix = s2 +:+ suffix → s1 = s2.
Proof.
  intros Heq. apply chars_inj.
  apply (f_equal list_ascii_of_string) in Heq.
  rewrite !chars_of_append in Heq. by apply app_inv_tail in Heq.
Qed.

(** A name without dot, followed by [.sql], does not end in [.script.sql]. *)
Lemma statement_file_is_no_script name :
  (∀ a, a ∈ list_ascii_of_string name → a ≠ "."%char) →
  endswith (name +:+ ".sql") ".script.sql" = false.
Proof.
  intros Hfree. apply not_true_is_false. intros [p Hp]%endswith_spec.
  change (p +:+ ".script.sql") with (p +:+ (".script" +:+ ".sql")) in Hp.
  assert (p +:+ (".script" +:+ ".sql") = (p +:+ ".script") +:+ ".sql") as Hassoc.
  { apply chars_inj. rewrite !chars_of_append. by rewrite app_assoc. }
  rewrite Hassoc in Hp. apply append_cancel_r in Hp.
  apply (Hfree "."%char); [|done].
  rewrite Hp, chars_of_append. apply elem_of_app. right. simpl. left.
Qed.

(** X5. The files are found by the naming convention of the directory: for a
    query name without dot, the file [name.sql] is cached as a single
    statement and the file [name.script.sql] as a script, each with its whole
    content, when no file before it in the directory has that name up to its
    first dot. *)
Theorem read_query_file_naming_convention name st before content after :
  (∀ a, a ∈ list_ascii_of_string name → a ≠ "."%char) →
  (∀ g, g ∈ before → stem (fst g) ≠ name) →
  (queries_dir st = before ++ (name +:+ ".sql", content) :: after →
   query_cache (snd (read_query_file name st)) !! name
   = Some (mkQuery false content))
  ∧ (queries_dir st = before ++ (name +:+ ".script.sql", content) :: after →
     query_cache (snd (read_query_file name st)) !! name
     = Some (mkQuery true content)).
Proof.
  intros Hfree Hbefore. split; intros Hdir.
  - erewrite read_query_file_found
      by (rewrite Hdir; apply first_match_decomposed;
          [done|by apply (stem_append name "sql")]).
    simpl. rewrite lookup_insert_eq.
    by rewrite statement_file_is_no_script.
  - erewrite read_query_file_found
      by (rewrite Hdir; apply first_match_decomposed;
          [done|by apply (stem_append name "script.sql")]).
    simpl. rewrite lookup_insert_eq. do 2 f_equal.
    apply endswith_spec. by exists name.
Qed.

(** X6. A query name that holds a dot is never found: whatever the directory
    holds, [read_query_file] raises the error for a missing query and leaves
    the cache as it is. *)
Theorem read_query_file_dotted_name_fails name st :
  "."%char ∈ list_ascii_of_string name →
  fst (read_query_file name st)
  = Raised (mkExc ValueError ("Query " +:+ name +:+ " does not exist"))
  ∧ query_cache (snd (read_query_file name st)) = query_cache st.
Proof.
  intros Hdot. rewrite read_query_file_missing; [done|].
  apply first_match_none. intros f _ Hstem.
  apply (split_head_free "."%char (fst f) "."%char); [|done].
  unfold stem in Hstem. by rewrite Hstem.
Qed.

(** X7. A request changes no entry but that of its own name, and never the
    directory: whether it returns or raises, the entries of all other names
    are as before. *)
Theorem cache_named_query_keeps_other_entries name other st :
  other ≠ name →
  query_cache (snd (cache_named_query name st)) !! other
  = query_cache st !! other
  ∧ queries_dir (snd (cache_named_query name st)) = queries_dir st.
Proof.
  intros Hne. destruct (query_cache st !! name) as [q|] eqn:Hq.
  - by rewrite cache_named_query_hit by (by rewrite Hq).
  - rewrite cache_named_query_miss by done.
    destruct (first_match name (queries_dir st)) as [[fname content]|] eqn:Hf.
    + rewrite (read_query_file_found _ _ _ _ Hf). simpl.
      by rewrite lookup_insert_ne.
    + by rewrite (read_query_file_missing _ _ Hf).
Qed.

(** X8. A miss is not remembered: a request for a name that no file matches
    raises after one scan of the directory and leaves the cache as it is, a
    second request scans the directory again, and once a matching file is
    there the request returns with the definition cached. *)
Theorem cache_named_query_miss_not_cached
    name st before fname content after :
  query_cache st !! name = None →
  (∀ f, f ∈ queries_dir st → stem (fst f) ≠ name) →
  (∀ g, g ∈ before → stem (fst g) ≠ name) →
  stem fname = name →
  let st1 := snd (cache_named_query name st) in
  let st2 := snd (cache_named_query name st1) in
  let st3 :=
    snd (cache_named_query name
           (edit_dir (before ++ (fname, content) :: after) st2)) in
  fst (cache_named_query name st)
  = Raised (mkExc ValueError ("Query " +:+ name +:+ " does not exist"))
  ∧ query_cache st1 = query_cache st
  ∧ fs_log st1 = fs_log st ++ [Iterdir]
  ∧ fs_log st2 = fs_log st ++ [Iterdir; Iterdir]
  ∧ query_cache st3 !! name
    = Some (mkQuery (endswith fname ".script.sql") content).
Proof.
  intros Hnone Hmissing%first_match_none Hbefore Hstem. cbv zeta.
  rewrite cache_named_query_miss by done.
  rewrite (read_query_file_missing _ _ Hmissing). cbn [fst snd].
  rewrite cache_named_query_miss by done.
  rewrite read_query_file_missing by done. cbn [fst snd].
  rewrite cache_named_query_miss by done.
  erewrite read_query_file_found
    by (by apply first_match_decomposed).
  cbn [fst snd query_cache fs_log queries_dir].
  rewrite lookup_insert_eq, <- app_assoc. done.
Qed.

(** X9. [clear_query_file_cache] drops the entry of every name without any
    access to the directory, and the next request for any name starts with a
    scan of the directory. *)
Theorem clear_query_file_cache_forgets_all name st :
  fst (clear_query_file_cache st) = Returned ()
  ∧ query_cache (snd (clear_query_file_cache st)) !! name = None
  ∧ fs_log (snd (clear_query_file_cache st)) = fs_log st
  ∧ queries_dir (snd (clear_query_file_cache st)) = queries_dir st
  ∧ ∃ more,
      fs_log (snd (cache_named_query name (snd (clear_query_file_cache st))))
      = fs_log st ++ Iterdir :: more.
Proof.
  simpl. split; [done|]. split; [apply lookup_empty|].
  split; [done|]. split; [done|].
  rewrite cache_named_query_miss by apply lookup_empty.
  destruct (first_match name (queries_dir (set_cache ∅ st)))
    as [[fname content]|] eqn:Hf.
  - rewrite (read_query_file_found _ _ _ _ Hf). simpl. by eexists.
  - rewrite (read_query_file_missing _ _ Hf). simpl. by eexists.
Qed.

End sql_file_cache_more.

(** ** [get_new_posts_for_user]: what the removal of duplicates keeps *)

Section get_new_posts_more.

Import Database.

Context {Conn TP PR : Type} `{Row TP, Row PR}.

Variable query_a : Conn → string → Z → list TP.
Variable query_b : Conn → string → Z → list PR.

(** X10. The post replies of the payload are the rows of the second query as
    they come, duplicates included; the thread posts are rows of the first
    query in their order, none added and none reordered. *)
Theorem get_new_posts_for_user_keeps_order conn uid ts :
  post_replies (get_new_posts_for_user query_a query_b conn uid ts)
  = query_b conn uid ts
  ∧ thread_posts (get_new_posts_for_user query_a query_b conn uid ts)
    `sublist_of` query_a conn uid ts.
Proof. split; [done|]. unfold get_new_posts_for_user. simpl. apply sublist_filter. Qed.

(** X11. The removal of duplicates loses no post and invents none: the IDs of
    the payload are exactly the IDs the two queries return. *)
Theorem get_new_posts_for_user_covers_candidates conn uid ts i :
  i ∈ payload_ids (get_new_posts_for_user query_a query_b conn uid ts)
  ↔ i ∈ List.map row_id (query_a conn uid ts)
    ∨ i ∈ List.map row_id (query_b conn uid ts).
Proof.
  unfold payload_ids. rewrite elem_of_app, post_replies_are_query_b.
  rewrite !elem_of_map. split.
  - intros [(row & Hid & Hrow)|Hb]; [|by right].
    left. exists row. split; [done|].
    by apply elem_of_thread_posts in Hrow as [? _].
  - intros [(row & Hid & Hrow)|Hb]; [|by right].
    destruct (decide (i ∈ List.map row_id (query_b conn uid ts))) as [Hin|Hout].
    + right. by apply elem_of_map in Hin.
    + left. exists row. split; [done|].
      apply elem_of_thread_posts. by rewrite Hid.
Qed.

(** X12. When no row of the first query has the ID of a row of the second
    (as when the second query returns nothing), the thread posts are the rows
    of the first query unchanged. *)
Theorem get_new_posts_for_user_without_overlap conn uid ts :
  (∀ row, row ∈ query_a conn uid ts →
          row_id row ∉ List.map row_id (query_b conn uid ts)) →
  thread_posts (get_new_posts_for_user query_a query_b conn uid ts)
  = query_a conn uid ts.
Proof.
  intros Hfresh. unfold get_new_posts_for_user. simpl.
  induction (query_a conn uid ts) as [|row rows IH]; [done|].
  rewrite filter_cons_True by (apply Hfresh; left).
  f_equal. apply IH. intros row' Hin. apply Hfresh. by right.
Qed.

End get_new_posts_more.

(** ** The scheduled tasks: failures *)

Section tasks_more.

Import Tasks.

Context {W U : Type}.

Variable get_new_posts : W → outcome () * W.
Variable get_users : W → outcome (list U) * W.

(** X13. A task stops at the first call that raises and hands the exception
    to its caller: when the refresh of the hourly task raises, the users are
    never loaded; when the loading of the users raises, in any task, the task
    raises the same exception. *)
Theorem execute_propagates_errors (r : run W (call U)) e w0 w1 :
  (get_new_posts (world r) = (Raised e, w1) →
   execute get_new_posts get_users Hourly r
   = (Raised e, mkRun w1 (trace r ++ [CallGetNewPosts])))
  ∧ (get_new_posts (world r) = (Returned (), w0) →
     get_users w0 = (Raised e, w1) →
     execute get_new_posts get_users Hourly r
     = (Raised e, mkRun w1 (trace r ++ [CallGetNewPosts; CallGetUsers])))
  ∧ (get_users (world r) = (Raised e, w1) →
     ∀ task, task ≠ Hourly →
       execute get_new_posts get_users task r
       = (Raised e, mkRun w1 (trace r ++ [CallGetUsers]))).
Proof.
  split; [|split].
  - intros Hrefresh.
    unfold execute, call_get_new_posts, log, on_world.
    unfold mbind, mret, M_bind, M_ret. simpl. by rewrite Hrefresh.
  - intros Hrefresh Husers.
    unfold execute, call_get_new_posts, call_get_users, log, on_world.
    unfold mbind, mret, M_bind, M_ret. simpl. rewrite Hrefresh. simpl.
    rewrite Husers. by rewrite <- app_assoc.
  - intros Husers task Htask.
    destruct task; [done| | |];
      unfold execute, call_get_users, log, on_world;
      unfold mbind, mret, M_bind, M_ret; simpl; by rewrite Husers.
Qed.

End tasks_more.

(** ** [read_local_config]: what is checked, and what is changed *)

Section local_config_more.

Import LocalConfig.

Variable package_dir : string.
Variable sub_with_escapes : string → string → string → outcome string.
Variable parse_file : string → outcome (gmap string value).

Implicit Types (config path : gmap string value).

(** All the keys checked at the top of the document are there, each with a
    value of its class. *)
Lemma checked_keys_pass config :
  (∀ key ty, (key, ty) ∈ checked_keys →
             isinstance_value (config !! key) ty = true) →
  isinstance_value (config !! "wikidot_username") Str = true
  ∧ isinstance_value (config !! "config_wiki") Str = true
  ∧ isinstance_value (config !! "user_config_category") Str = true
  ∧ isinstance_value (config !! "wiki_config_category") Str = true
  ∧ isinstance_value (config !! "overrides_url") Str = true
  ∧ isinstance_value (config !! "gmail_username") Str = true
  ∧ isinstance_value (config !! "path") Dict = true.
Proof.
  intros Hall. unfold checked_keys in Hall.
  repeat split; apply Hall;
    repeat first [apply list_elem_of_here | apply list_elem_of_further].
Qed.

Lemma is_dict (v : option value) :
  isinstance_value v Dict = true → ∃ d, v = Some (VDict d).
Proof. destruct v as [[]|]; simpl; try done. by eexists. Qed.

Lemma is_str (v : option value) :
  isinstance_value v Str = true → ∃ s, v = Some (VStr s).
Proof. destruct v as [[]|]; simpl; try done. by eexists. Qed.

Lemma bind_run {S A B} (m : M S A) (k : A → M S B) (s : S) :
  (m ≫= k) s
  = match m s with
    | (Returned a, s') => k a s'
    | (Raised e, s') => (Raised e, s')
    end.
Proof. reflexivity. Qed.

Lemma getitem_run {S A} d key v (k : value → M S A) (s : S) :
  d !! key = Some v →
  (getitem (VDict d) key ≫= k) s = k v s.
Proof. intros Hv. rewrite bind_run. unfold getitem. by rewrite Hv. Qed.

Lemma assert_key_passes {S A} d key ty (m : M S A) (s : S) :
  isinstance_value (d !! key) ty = true →
  (assert_key (VDict d) key ty;; m) s = m s.
Proof.
  intros Hpass. unfold mbind, M_bind, assert_key. by rewrite Hpass.
Qed.

Lemma assert_key_fails {S A} d key ty (m : M S A) (s : S) :
  isinstance_value (d !! key) ty = false →
  (assert_key (VDict d) key ty;; m) s
  = (Raised (mkExc KeyError ("Missing " +:+ key +:+ " in config")), s).
Proof.
  intros Hfail. unfold mbind, M_bind, assert_key. by rewrite Hfail.
Qed.

Ltac pass_checks Hbefore :=
  repeat (rewrite assert_key_passes
            by (apply Hbefore;
                repeat first [apply list_elem_of_here
                             | apply list_elem_of_further])).

(** The check stops at the first key of [checked_keys] that is missing or
    has a value of another class, with the error that names that key, and
    leaves the document as it is. *)
Lemma is_complete_config_first_failure
    config_path config before key ty after :
  checked_keys = before ++ (key, ty) :: after →
  (∀ key' ty', (key', ty') ∈ before →
               isinstance_value (config !! key') ty' = true) →
  isinstance_value (config !! key) ty = false →
  is_complete_config package_dir sub_with_escapes config_path config
  = (Raised (mkExc KeyError ("Missing " +:+ key +:+ " in config")), config).
Proof.
  unfold checked_keys. intros Hkeys Hbefore Hfail.
  unfold is_complete_config.
  change ((the_config ≫= ?f) config) with (f (VDict config) config).
  cbv beta.
  do 7 (destruct before as [|[? ?] before];
        [injection Hkeys as <- <- <-; pass_checks Hbefore;
         by rewrite assert_key_fails by done
        |injection Hkeys as <- <- Hkeys]).
  by destruct before.
Qed.

(** When the top of the document passes, what is left of the check is the
    part on the [path] table. *)
Lemma is_complete_config_top_passes config_path config path :
  (∀ key ty, (key, ty) ∈ checked_keys →
             isinstance_value (config !! key) ty = true) →
  config !! "path" = Some (VDict path) →
  is_complete_config package_dir sub_with_escapes config_path config
  = (assert_key (VDict path) "lang" Str;;
     lang ← getitem (VDict path) "lang";
     lang ← replace_path_alias package_dir sub_with_escapes config_path lang;
     setitem_path_lang lang;;
     mret true) config.
Proof.
  intros Htop Hpath.
  unfold is_complete_config.
  change ((the_config ≫= ?f) config) with (f (VDict config) config).
  cbv beta. unfold checked_keys in Htop. pass_checks Htop.
  rewrite (getitem_run _ _ _ _ _ Hpath).
  destruct (isinstance_value (path !! "lang") Str) eqn:Hlang.
  - rewrite !assert_key_passes by done.
    by rewrite (getitem_run _ _ _ _ _ Hpath).
  - by rewrite !assert_key_fails by done.
Qed.

(** [replace_path_alias] leaves the state alone. *)
Lemma replace_path_alias_state {S} config_path (v : value) (s : S) :
  snd (replace_path_alias package_dir sub_with_escapes config_path v s) = s.
Proof.
  destruct v as [path| | | |]; try done.
  unfold replace_path_alias. rewrite bind_run.
  assert (Hsub : ∀ pattern c repl text,
            snd (re_sub_start (S:=S) sub_with_escapes pattern c repl text s)
            = s).
  { intros pattern c repl text. unfold re_sub_start.
    destruct (has_backslash repl).
    - by destruct (sub_with_escapes pattern repl text).
    - destruct text as [|a rest]; [done|]. by destruct (Ascii.eqb a c). }
  pose proof (Hsub "^@" "@"%char package_dir path) as H1.
  destruct (re_sub_start sub_with_escapes "^@" "@" package_dir path s)
    as [[path1|e] s1]; simpl in H1; subst s1; [|done].
  rewrite bind_run.
  pose proof (Hsub "^\?" "?"%char config_path path1) as H2.
  by destruct (re_sub_start sub_with_escapes "^\?" "?" config_path path1 s)
    as [[path2|e] s2]; simpl in H2; subst s2.
Qed.

(** X14. [read_local_config] raises a [KeyError] that names the first of the
    checked keys, in the order of the checks, that is missing from the parsed
    document or has a value of another class than the one asked for. *)
Theorem read_local_config_reports_first_bad_key
    config_path config before key ty after :
  parse_file config_path = Returned config →
  checked_keys = before ++ (key, ty) :: after →
  (∀ key' ty', (key', ty') ∈ before →
               isinstance_value (config !! key') ty' = true) →
  isinstance_value (config !! key) ty = false →
  read_local_config package_dir sub_with_escapes parse_file config_path
  = Raised (mkExc KeyError ("Missing " +:+ key +:+ " in config")).
Proof.
  intros Hparse Hkeys Hbefore Hfail. unfold read_local_config.
  rewrite Hparse.
  by rewrite (is_complete_config_first_failure _ _ _ _ _ _ Hkeys Hbefore Hfail).
Qed.

(** X15. When the keys at the top of the document pass, a [path] table
    without a string under [lang] makes [read_local_config] raise the
    [KeyError] that names [lang]. *)
Theorem read_local_config_reports_bad_lang config_path config path :
  parse_file config_path = Returned config →
  (∀ key ty, (key, ty) ∈ checked_keys →
             isinstance_value (config !! key) ty = true) →
  config !! "path" = Some (VDict path) →
  isinstance_value (path !! "lang") Str = false →
  read_local_config package_dir sub_with_escapes parse_file config_path
  = Raised (mkExc KeyError "Missing lang in config").
Proof.
  intros Hparse Htop Hpath Hlang. unfold read_local_config. rewrite Hparse.
  rewrite (is_complete_config_top_passes _ _ _ Htop Hpath).
  by rewrite assert_key_fails by done.
Qed.

(** Either every key of a list passes, or there is a first one that does
    not. *)
Lemma first_bad_key config (keys : list (string * pytype)) :
  (∀ key ty, (key, ty) ∈ keys → isinstance_value (config !! key) ty = true)
  ∨ ∃ before key ty after,
      keys = before ++ (key, ty) :: after
      ∧ (∀ key' ty', (key', ty') ∈ before →
                     isinstance_value (config !! key') ty' = true)
      ∧ isinstance_value (config !! key) ty = false.
Proof.
  induction keys as [|[key ty] keys IH].
  - left. by intros key ty ?%elem_of_nil.
  - destruct (isinstance_value (config !! key) ty) eqn:Hkey.
    + destruct IH as [Hall|(before & key' & ty' & after & -> & Hbefore & Hbad)].
      * left. intros key' ty' [[= -> ->]|Hin]%elem_of_cons; [done|by apply Hall].
      * right. exists ((key, ty) :: before), key', ty', after.
        split; [done|]. split; [|done].
        intros key'' ty'' [[= -> ->]|Hin]%elem_of_cons;
          [done|by apply Hbefore].
    + right. exists [], key, ty, keys. split; [done|]. split; [|done].
      by intros key' ty' ?%elem_of_nil.
Qed.

(** X16. [is_complete_config] never returns [False]: it returns [True] or
    raises, so that the [raise RuntimeError] that ends [read_local_config]
    is never reached. *)
Theorem is_complete_config_never_false config_path config :
  fst (is_complete_config package_dir sub_with_escapes config_path config)
  ≠ Returned false.
Proof.
  destruct (first_bad_key config checked_keys)
    as [Htop|(before & key & ty & after & Hkeys & Hbefore & Hfail)].
  - destruct (is_dict (config !! "path")) as [path Hpath].
    { apply Htop. unfold checked_keys.
      repeat first [apply list_elem_of_here | apply list_elem_of_further]. }
    rewrite (is_complete_config_top_passes _ _ _ Htop Hpath).
    destruct (isinstance_value (path !! "lang") Str) eqn:Hlang.
    + rewrite assert_key_passes by done.
      destruct (is_str _ Hlang) as [lang Hl].
      rewrite bind_run. unfold getitem. rewrite Hl.
      unfold mret at 1, M_ret at 1. cbv beta iota.
      rewrite bind_run.
      pose proof (replace_path_alias_state config_path (VStr lang) config)
        as Hstate.
      destruct (replace_path_alias package_dir sub_with_escapes config_path
                  (VStr lang) config) as [[lang'|e] config'];
        simpl in Hstate; subst config'; [|done].
      rewrite bind_run. unfold setitem_path_lang. by rewrite Hpath.
    + by rewrite assert_key_fails by done.
  - by rewrite (is_complete_config_first_failure _ _ _ _ _ _ Hkeys Hbefore
                  Hfail).
Qed.

(** X17. A document that passes the checks is returned with one change: the
    string under [lang] of its [path] table is replaced by what
    [replace_path_alias] makes of it. Every other key of the document (the
    keys that are not checked among them) and every other key of the [path]
    table is as parsed. *)
Theorem read_local_config_changes_lang_only
    config_path config path lang lang' :
  parse_file config_path = Returned config →
  (∀ key ty, (key, ty) ∈ checked_keys →
             isinstance_value (config !! key) ty = true) →
  config !! "path" = Some (VDict path) →
  path !! "lang" = Some (VStr lang) →
  fst (replace_path_alias package_dir sub_with_escapes config_path
         (VStr lang) config) = Returned lang' →
  ∃ result,
    read_local_config package_dir sub_with_escapes parse_file config_path
    = Returned result
    ∧ (∀ key, key ≠ "path" → result !! key = config !! key)
    ∧ ∃ path',
        result !! "path" = Some (VDict path')
        ∧ path' !! "lang" = Some (VStr lang')
        ∧ ∀ key, key ≠ "lang" → path' !! key = path !! key.
Proof.
  intros Hparse Htop Hpath Hlang Halias. unfold read_local_config.
  rewrite Hparse.
  rewrite (is_complete_config_top_passes _ _ _ Htop Hpath).
  rewrite assert_key_passes by (by rewrite Hlang).
  rewrite bind_run. unfold getitem. rewrite Hlang.
  unfold mret at 1, M_ret at 1. cbv beta iota.
  rewrite bind_run.
  pose proof (replace_path_alias_state config_path (VStr lang) config)
    as Hstate.
  destruct (replace_path_alias package_dir sub_with_escapes config_path
              (VStr lang) config) as [[lang''|e] config'];
    simpl in Hstate, Halias; subst config'; [|done].
  injection Halias as ->.
  rewrite bind_run. unfold setitem_path_lang. rewrite Hpath.
  unfold mret, M_ret. cbv beta iota.
  eexists. split; [done|]. split.
  - intros key Hkey. by rewrite lookup_insert_ne.
  - eexists. split; [by rewrite lookup_insert_eq|].
    split; [by rewrite lookup_insert_eq|].
    intros key Hkey. by rewrite lookup_insert_ne.
Qed.

(** X18. For a package directory and a config path without backslash,
    [replace_path_alias] puts the package directory, when that is an absolute
    path, in the place of an [@] that starts the path, puts the path of the
    config file in the place of a [?] that starts the path, and returns any
    other path as it is. *)
Theorem replace_path_alias_at_start {S} config_path (s : S) :
  has_backslash package_dir = false →
  has_backslash config_path = false →
  (∀ dir rest,
     package_dir = String "/" dir →
     replace_path_alias package_dir sub_with_escapes config_path
       (VStr (String "@" rest)) s
     = (Returned (package_dir +:+ rest), s))
  ∧ (∀ rest,
       replace_path_alias package_dir sub_with_escapes config_path
         (VStr (String "?" rest)) s
       = (Returned (config_path +:+ rest), s))
  ∧ (∀ text,
       (∀ rest, text ≠ String "@" rest) →
       (∀ rest, text ≠ String "?" rest) →
       replace_path_alias package_dir sub_with_escapes config_path
         (VStr text) s
       = (Returned text, s)).
Proof.
  intros Hpkg Hcfg. unfold replace_path_alias, re_sub_start.
  rewrite Hpkg, Hcfg. split; [|split].
  - intros dir rest Hdir. rewrite bind_run. cbn [Ascii.eqb Bool.eqb].
    unfold mret at 1, M_ret at 1. cbv beta iota.
    rewrite Hdir at 1. by cbn.
  - intros rest. rewrite bind_run. by cbn.
  - intros text Hat Hq. rewrite bind_run.
    destruct text as [|a rest]; [done|].
    destruct (Ascii.eqb_spec a "@") as [->|_]; [by destruct (Hat rest)|].
    unfold mret at 1, M_ret at 1. cbv beta iota.
    destruct (Ascii.eqb_spec a "?") as [->|_]; [by destruct (Hq rest)|].
    done.
Qed.

End local_config_more.

(** ** The further properties at the sample data *)

Lemma dot_free_check (s : string) :
  forallb (λ a, negb (Ascii.eqb a "."%char)) (list_ascii_of_string s) = true →
  ∀ a, a ∈ list_ascii_of_string s → a ≠ "."%char.
Proof.
  rewrite forallb_forall. intros Hall a Hin ->.
  apply list_elem_of_In, Hall in Hin. by rewrite Ascii.eqb_refl in Hin.
Qed.

Ltac no_match :=
  let g := fresh "g" in
  let Hg := fresh "Hg" in
  let Hs := fresh "Hs" in
  intros g Hg;
  repeat (apply elem_of_cons in Hg as [->|Hg];
          [intros Hs; vm_compute in Hs; discriminate Hs|]);
  by apply elem_of_nil in Hg.

Ltac each_key :=
  let Hin := fresh "Hin" in
  intros ? ? Hin;
  repeat (apply elem_of_cons in Hin as [[= -> ->]|Hin]; [reflexivity|]);
  by apply elem_of_nil in Hin.

Lemma try_cache_other_error_propagates_witness :
  ∃ r',
    TryCache.try_cache Sample.fetch_times_out (Some "fetch_users") Sample.store_users
      None TryCache.default_catch (mkRun ["carol"] [])
    = (Raised (mkExc Sample.ConnectionError "timed out"), r')
    ∧ TryCache.store_calls (trace r') = []
    ∧ Trace.printed (trace r') = []
    ∧ world r' = ["carol"].
Proof.
  apply (try_cache_other_error_propagates Sample.fetch_times_out
           (Some "fetch_users")
           Sample.store_users None TryCache.default_catch
           (mkRun ["carol"] []) (mkExc Sample.ConnectionError "timed out")
           ["carol"]).
  - reflexivity.
  - reflexivity.
Defined.

Lemma try_cache_store_error_propagates_witness :
  ∃ r',
    TryCache.try_cache Sample.fetch_users (Some "fetch_users") Fixtures.store_fails
      None (Some [Sample.ConnectionError]) (mkRun ["carol"] [])
    = (Raised (mkExc Sample.ConnectionError "database is locked"), r')
    ∧ TryCache.store_calls (trace r') = [] ++ [Some ["alice"; "bob"]]
    ∧ Trace.printed (trace r') = []
    ∧ world r' = ["carol"].
Proof.
  apply (try_cache_store_error_propagates Sample.fetch_users
           (Some "fetch_users")
           Fixtures.store_fails None (Some [Sample.ConnectionError])
           (mkRun ["carol"] []) (Some ["alice"; "bob"]) ["carol"]
           (mkExc Sample.ConnectionError "database is locked") ["carol"]).
  - reflexivity.
  - discriminate.
  - reflexivity.
Defined.

Lemma read_query_file_naming_convention_witness :
  SqlFileCache.query_cache
    (snd (SqlFileCache.read_query_file "get_user_configs"
            (SqlFileCache.init Sample.queries_v1))) !! "get_user_configs"
  = Some (SqlFileCache.mkQuery false "SELECT * FROM user_config").
Proof.
  apply (proj1 (read_query_file_naming_convention "get_user_configs"
                  (SqlFileCache.init Sample.queries_v1)
                  [("create_tables.script.sql",
                    "CREATE TABLE post (id TEXT);")]
                  "SELECT * FROM user_config" []
                  ltac:(apply dot_free_check; reflexivity)
                  ltac:(no_match))).
  reflexivity.
Defined.

Lemma read_query_file_dotted_name_fails_witness :
  fst (SqlFileCache.read_query_file "create_tables.script"
         (SqlFileCache.init Sample.queries_v1))
  = Raised (mkExc ValueError
              ("Query " +:+ "create_tables.script" +:+ " does not exist"))
  ∧ SqlFileCache.query_cache
      (snd (SqlFileCache.read_query_file "create_tables.script"
              (SqlFileCache.init Sample.queries_v1)))
    = SqlFileCache.query_cache (SqlFileCache.init Sample.queries_v1).
Proof.
  apply (read_query_file_dotted_name_fails "create_tables.script"
           (SqlFileCache.init Sample.queries_v1)).
  in_list.
Defined.

Lemma cache_named_query_keeps_other_entries_witness :
  SqlFileCache.query_cache
    (snd (SqlFileCache.cache_named_query "create_tables" Sample.served_once))
    !! "get_user_configs"
  = SqlFileCache.query_cache Sample.served_once !! "get_user_configs"
  ∧ SqlFileCache.queries_dir
      (snd (SqlFileCache.cache_named_query "create_tables"
              Sample.served_once))
    = SqlFileCache.queries_dir Sample.served_once.
Proof.
  apply (cache_named_query_keeps_other_entries "create_tables"
           "get_user_configs" Sample.served_once).
  discriminate.
Defined.

Lemma cache_named_query_miss_not_cached_witness :
  let st1 :=
    snd (SqlFileCache.cache_named_query "get_posts"
           (SqlFileCache.init Sample.queries_v1)) in
  let st2 := snd (SqlFileCache.cache_named_query "get_posts" st1) in
  let st3 :=
    snd (SqlFileCache.cache_named_query "get_posts"
           (SqlFileCache.edit_dir
              (Sample.queries_v1
               ++ ("get_posts.sql", "SELECT * FROM post") :: []) st2)) in
  fst (SqlFileCache.cache_named_query "get_posts"
         (SqlFileCache.init Sample.queries_v1))
  = Raised (mkExc ValueError ("Query " +:+ "get_posts" +:+ " does not exist"))
  ∧ SqlFileCache.query_cache st1
    = SqlFileCache.query_cache (SqlFileCache.init Sample.queries_v1)
  ∧ SqlFileCache.fs_log st1
    = SqlFileCache.fs_log (SqlFileCache.init Sample.queries_v1)
      ++ [SqlFileCache.Iterdir]
  ∧ SqlFileCache.fs_log st2
    = SqlFileCache.fs_log (SqlFileCache.init Sample.queries_v1)
      ++ [SqlFileCache.Iterdir; SqlFileCache.Iterdir]
  ∧ SqlFileCache.query_cache st3 !! "get_posts"
    = Some (SqlFileCache.mkQuery (endswith "get_posts.sql" ".script.sql")
              "SELECT * FROM post").
Proof.
  apply (cache_named_query_miss_not_cached "get_posts"
           (SqlFileCache.init Sample.queries_v1) Sample.queries_v1
           "get_posts.sql" "SELECT * FROM post" []).
  - reflexivity.
  - no_match.
  - no_match.
  - reflexivity.
Defined.

Lemma get_new_posts_for_user_without_overlap_witness :
  thread_posts
    (Database.get_new_posts_for_user
       (Queries.get_posts_in_subscribed_threads Sample.no_override)
       (Queries.get_replies_to_subscribed_posts Sample.no_override false)
       (Sample.db [mkSubscription "T" None Plus1]) "U" 0)
  = Queries.get_posts_in_subscribed_threads Sample.no_override
      (Sample.db [mkSubscription "T" None Plus1]) "U" 0.
Proof.
  apply (get_new_posts_for_user_without_overlap
           (Queries.get_posts_in_subscribed_threads Sample.no_override)
           (Queries.get_replies_to_subscribed_posts Sample.no_override false)
           (Sample.db [mkSubscription "T" None Plus1]) "U" 0).
  intros row _ Hin. vm_compute in Hin. by apply elem_of_nil in Hin.
Defined.

Lemma read_local_config_reports_first_bad_key_witness :
  LocalConfig.read_local_config Fixtures.package_dir Fixtures.sub_with_escapes
    (Fixtures.parse_file Fixtures.config_without_gmail) "config.toml"
  = Raised (mkExc LocalConfig.KeyError
              ("Missing " +:+ "gmail_username" +:+ " in config")).
Proof.
  apply (read_local_config_reports_first_bad_key Fixtures.package_dir
           Fixtures.sub_with_escapes
           (Fixtures.parse_file Fixtures.config_without_gmail) "config.toml"
           Fixtures.config_without_gmail
           [ ("wikidot_username", LocalConfig.Str);
             ("config_wiki", LocalConfig.Str);
             ("user_config_category", LocalConfig.Str);
             ("wiki_config_category", LocalConfig.Str);
             ("overrides_url", LocalConfig.Str) ]
           "gmail_username" LocalConfig.Str
           [ ("path", LocalConfig.Dict) ]).
  - reflexivity.
  - reflexivity.
  - each_key.
  - reflexivity.
Defined.

Lemma read_local_config_reports_bad_lang_witness :
  LocalConfig.read_local_config Fixtures.package_dir Fixtures.sub_with_escapes
    (Fixtures.parse_file Fixtures.config_without_lang) "config.toml"
  = Raised (mkExc LocalConfig.KeyError "Missing lang in config").
Proof.
  apply (read_local_config_reports_bad_lang Fixtures.package_dir
           Fixtures.sub_with_escapes
           (Fixtures.parse_file Fixtures.config_without_lang) "config.toml"
           Fixtures.config_without_lang ∅).
  - reflexivity.
  - unfold LocalConfig.checked_keys. each_key.
  - reflexivity.
  - reflexivity.
Defined.

Lemma read_local_config_changes_lang_only_witness :
  ∃ result,
    LocalConfig.read_local_config Fixtures.package_dir
      Fixtures.sub_with_escapes (Fixtures.parse_file Fixtures.config)
      "config.toml"
    = Returned result
    ∧ (∀ key, key ≠ "path" → result !! key = Fixtures.config !! key)
    ∧ ∃ path',
        result !! "path" = Some (LocalConfig.VDict path')
        ∧ path' !! "lang" = Some (LocalConfig.VStr "/srv/notifier/lang")
        ∧ ∀ key, key ≠ "lang" →
            path' !! key
            = (<["lang" := LocalConfig.VStr "@/lang"]> ∅
                : gmap string LocalConfig.value) !! key.
Proof.
  apply (read_local_config_changes_lang_only Fixtures.package_dir
           Fixtures.sub_with_escapes (Fixtures.parse_file Fixtures.config)
           "config.toml" Fixtures.config
           (<["lang" := LocalConfig.VStr "@/lang"]> ∅) "@/lang"
           "/srv/notifier/lang").
  - reflexivity.
  - unfold LocalConfig.checked_keys. each_key.
  - reflexivity.
  - reflexivity.
  - reflexivity.
Defined.

Lemma replace_path_alias_at_start_witness :
  (∀ dir rest,
     Fixtures.package_dir = String "/" dir →
     LocalConfig.replace_path_alias Fixtures.package_dir
       Fixtures.sub_with_escapes "config.toml"
       (LocalConfig.VStr (String "@" rest)) ()
     = (Returned (Fixtures.package_dir +:+ rest), ()))
  ∧ (∀ rest,
       LocalConfig.replace_path_alias Fixtures.package_dir
         Fixtures.sub_with_escapes "config.toml"
         (LocalConfig.VStr (String "?" rest)) ()
       = (Returned ("config.toml" +:+ rest), ()))
  ∧ (∀ text,
       (∀ rest, text ≠ String "@" rest) →
       (∀ rest, text ≠ String "?" rest) →
       LocalConfig.replace_path_alias Fixtures.package_dir
         Fixtures.sub_with_escapes "config.toml" (LocalConfig.VStr text) ()
       = (Returned text, ())).
Proof.
  apply (replace_path_alias_at_start Fixtures.package_dir
           Fixtures.sub_with_escapes "config.toml" ()).
  - reflexivity.
  - reflexivity.
Defined.

(** ** The failures of a fetch callable without [__name__], at the sample data *)

Lemma try_cache_nameless_get_raises_in_handler_witness :
  ∃ r',
    TryCache.try_cache Sample.fetch_times_out None Sample.store_users None
      (Some [Sample.ConnectionError]) (mkRun ["carol"] [])
    = (Raised (mkExc TryCache.AttributeError "__name__"), r')
    ∧ TryCache.store_calls (trace r') = []
    ∧ world r' = ["carol"].
Proof.
  apply (try_cache_nameless_get_raises_in_handler Sample.fetch_times_out
           Sample.store_users None [Sample.ConnectionError]
           (mkRun ["carol"] []) (mkExc Sample.ConnectionError "timed out")
           ["carol"]).
  - reflexivity.
  - simpl. left.
Defined.

Lemma try_cache_skip_returns_nameless_failure_raises_witness :
  ∃ r1 r2,
    TryCache.try_cache Sample.fetch_nothing None Sample.store_users None
      (Some [Sample.ConnectionError]) (mkRun ["carol"] [])
    = (Returned (), r1)
    ∧ TryCache.try_cache Sample.fetch_times_out None Sample.store_users None
        (Some [Sample.ConnectionError]) (mkRun ["carol"] [])
      = (Raised (mkExc TryCache.AttributeError "__name__"), r2)
    ∧ TryCache.store_calls (trace r1) = []
    ∧ TryCache.store_calls (trace r2) = [].
Proof.
  apply (try_cache_skip_returns_nameless_failure_raises Sample.fetch_nothing
           None Sample.fetch_times_out Sample.store_users None
           [Sample.ConnectionError] (mkRun ["carol"] []) ["carol"]
           (mkExc Sample.ConnectionError "timed out") ["carol"]).
  - reflexivity.
  - reflexivity.
  - reflexivity.
Defined.
